(** * pair: composite git author identities and pair-scoped branches

    A shallow embedding of [pair.go].  Go strings are byte strings and are
    modelled as [string] (one [ascii] per byte); a Go [error] is the text of
    its message, [None] standing for [nil]; the author map is a
    [gmap string string].  The subprocesses the program runs ([git config],
    [git rev-parse], [git checkout]) act on an explicit [World].

    The file has three parts: the program, the vocabulary of its
    specification with some sample data, and the theorems. *)

From Stdlib Require Import Ascii NArith.
From Stdlib Require String.
From stdpp Require Import base option list sorting strings gmap.

(** * Part I: the program *)

(** ** Go values *)

(** A Go [error]: [None] is [nil], [Some msg] an error whose [Error()] is
    [msg]. *)
Definition error : Type := option string.

(** The line feed and carriage return bytes. *)
Definition LF : ascii := ascii_of_nat 10.
Definition CR : ascii := ascii_of_nat 13.
Definition nl : string := String LF "".

(** ** The parts of packages [strings] and [sort] that [pair.go] calls *)

(** [strings.Split(s, sep)] for a separator of one byte: the pieces of [s]
    between the occurrences of [sep], in order.  The result is never empty. *)
Fixpoint Split (s : string) (sep : ascii) : list string :=
  match s with
  | EmptyString => [""]
  | String c s' =>
      if Ascii.eqb c sep then "" :: Split s' sep
      else match Split s' sep with
           | p :: ps => String c p :: ps
           | [] => [String c ""]
           end
  end.

(** [strings.Join(elems, sep)]. *)
Fixpoint Join (elems : list string) (sep : string) : string :=
  match elems with
  | [] => ""
  | [x] => x
  | x :: xs => x +:+ sep +:+ Join xs sep
  end.

(** [strings.HasPrefix(s, prefix)]. *)
Fixpoint HasPrefix (s prefix : string) {struct prefix} : bool :=
  match prefix, s with
  | EmptyString, _ => true
  | String _ _, EmptyString => false
  | String a p', String b s' => Ascii.eqb a b && HasPrefix s' p'
  end.

(** [s[n:]] for [n <= len(s)]. *)
Fixpoint slice_from (n : nat) (s : string) : string :=
  match n, s with
  | 0, _ => s
  | S n', String _ s' => slice_from n' s'
  | S _, EmptyString => ""
  end.

(** [strings.TrimPrefix(s, prefix)]. *)
Definition TrimPrefix (s prefix : string) : string :=
  if HasPrefix s prefix then slice_from (String.length prefix) s else s.

(** Whether byte [c] occurs in [cutset]. *)
Fixpoint in_cutset (c : ascii) (cutset : string) : bool :=
  match cutset with
  | EmptyString => false
  | String d cutset' => Ascii.eqb c d || in_cutset c cutset'
  end.

(** [strings.TrimRight(s, cutset)] for a cutset of one-byte characters:
    [s] without its longest suffix made of bytes of [cutset]. *)
Fixpoint TrimRight (s cutset : string) : string :=
  match s with
  | EmptyString => ""
  | String c s' =>
      match TrimRight s' cutset with
      | EmptyString => if in_cutset c cutset then "" else String c ""
      | t => String c t
      end
  end.

(** [sort.Strings(x)] sorts [x] in increasing order for Go's [<] on
    strings, the lexicographic order on bytes, which is [String.ltb].
    Modelled by insertion; [sort_Strings_unique] below shows that every
    sorting procedure returns this list. *)
Fixpoint sort_insert (x : string) (l : list string) : list string :=
  match l with
  | [] => [x]
  | y :: l' => if String.ltb y x then y :: sort_insert x l' else x :: y :: l'
  end.

Fixpoint sort_Strings (x : list string) : list string :=
  match x with
  | [] => []
  | s :: x' => sort_insert s (sort_Strings x')
  end.

(** ** The pure functions of [pair.go] *)

(** [SplitEmail] (pair.go:269-278). *)
Definition SplitEmail (email : string) : string * string * error :=
  match Split email "@" with
  | [user; host] => (user, host, None)
  | _ => ("", "", Some ("invalid email address: " +:+ email))
  end.

(** [EmailAddressForUsernames] (pair.go:318-337). *)
Definition EmailAddressForUsernames (emailTemplate : string)
    (usernames : list string) : string * error :=
  match SplitEmail emailTemplate with
  | (_, _, Some err) => ("", Some err)
  | (user, host, None) =>
      match usernames with
      | [] => (emailTemplate, None)
      | [username] => (username +:+ "@" +:+ host, None)
      | _ => (user +:+ "+" +:+ Join usernames "+" +:+ "@" +:+ host, None)
      end
  end.

(** The [for ... range usernames] loop of [NamesForUsernames]
    (pair.go:348-354), [names] being the slice built so far. *)
Fixpoint NamesForUsernames_loop (usernames : list string)
    (authorMap : gmap string string) (names : list string)
    : list string * error :=
  match usernames with
  | [] => (names, None)
  | username :: rest =>
      match authorMap !! username with
      | None => (names, Some ("no such username: " +:+ username))
      | Some name => NamesForUsernames_loop rest authorMap (names ++ [name])
      end
  end.

(** [NamesForUsernames] (pair.go:339-357). *)
Definition NamesForUsernames (usernames : list string)
    (authorMap : gmap string string) : string * error :=
  if Nat.eqb (length usernames) 0 then ("", None)
  else
    match NamesForUsernames_loop usernames authorMap [] with
    | (_, Some err) => ("", Some err)
    | (names, None) => (Join names " and ", None)
    end.

(** ** The environment of the process *)

(** What the program can observe and change outside its own memory: the git
    configuration files, the repository's branches, the pairs file, the
    network, the environment variables and the two output streams. *)
Record World : Type := mkWorld {
  (** value of each property of each git config file, keyed by
      (file, property) *)
  config : gmap (string * string) string;
  (** the names [git rev-parse] resolves in the working directory *)
  refs : gset string;
  (** the branch that is checked out *)
  head : string;
  (** [os.Open] of a path followed by [ReadAuthorsByUsername]: the parsed
      YAML map, or the error of either step *)
  authors : string -> gmap string string * error;
  (** [LookupReverseDNSNamesByInterface]: what the network answers *)
  dnsNames : string -> list string * error;
  (** [os.ExpandEnv] of a single variable *)
  environ : gmap string string;
  (** git command lines that the environment makes fail (locked or
      read-only file, missing binary, ...) *)
  fails : list string -> bool;
  (** every git command line run so far, oldest first *)
  log : list (list string);
  (** what has been written to os.Stdout and os.Stderr, one entry per call *)
  stdout : list string;
  stderr : list string;
}.

Definition set_config (f : gmap (string * string) string -> gmap (string * string) string)
    (w : World) : World :=
  mkWorld (f (config w)) (refs w) (head w) (authors w) (dnsNames w) (environ w)
          (fails w) (log w) (stdout w) (stderr w).

Definition set_branch (r : gset string) (h : string) (w : World) : World :=
  mkWorld (config w) r h (authors w) (dnsNames w) (environ w)
          (fails w) (log w) (stdout w) (stderr w).

Definition add_log (args : list string) (w : World) : World :=
  mkWorld (config w) (refs w) (head w) (authors w) (dnsNames w) (environ w)
          (fails w) (log w ++ [args]) (stdout w) (stderr w).

Definition add_stdout (s : string) (w : World) : World :=
  mkWorld (config w) (refs w) (head w) (authors w) (dnsNames w) (environ w)
          (fails w) (log w) (stdout w ++ [s]) (stderr w).

Definition add_stderr (s : string) (w : World) : World :=
  mkWorld (config w) (refs w) (head w) (authors w) (dnsNames w) (environ w)
          (fails w) (log w) (stdout w) (stderr w ++ [s]).

(** Computations that read and change the world. *)
Definition M (A : Type) : Type := World -> A * World.

#[export] Instance M_ret : MRet M := fun A a w => (a, w).
#[export] Instance M_bind : MBind M :=
  fun A B k m w => let '(a, w') := m w in k a w'.

(** The git command lines the program uses. *)
Inductive GitCmd : Type :=
  | ConfigGet (file property : string)
  | ConfigSet (file property value : string)
  | RevParse (rev : string)
  | Checkout (branch : string)
  | CheckoutNew (branch start : string).

Definition git_args (c : GitCmd) : list string :=
  match c with
  | ConfigGet file property => ["config"; "--file"; file; property]
  | ConfigSet file property value => ["config"; "--file"; file; property; value]
  | RevParse rev => ["rev-parse"; rev]
  | Checkout branch => ["checkout"; branch]
  | CheckoutNew branch start => ["checkout"; "-b"; branch; start]
  end.

Definition parse_git (args : list string) : option GitCmd :=
  match args with
  | [a; b] =>
      if String.eqb a "rev-parse" then Some (RevParse b)
      else if String.eqb a "checkout" then Some (Checkout b)
      else None
  | [a; b; c; d] =>
      if String.eqb a "config" && String.eqb b "--file" then Some (ConfigGet c d)
      else if String.eqb a "checkout" && String.eqb b "-b" then Some (CheckoutNew c d)
      else None
  | [a; b; c; d; e] =>
      if String.eqb a "config" && String.eqb b "--file" then Some (ConfigSet c d e)
      else None
  | _ => None
  end.

(** The error of a subprocess that exits with a non-zero status. *)
Definition exit_error : error := Some "exit status 1".

(** What git does with a command it accepts: its standard output, its exit
    status as an [error], and its effect on the world. *)
Definition git_step (c : GitCmd) (w : World) : (string * error) * World :=
  match c with
  | ConfigGet file property =>
      match config w !! (file, property) with
      | Some value => ((value +:+ nl, None), w)
      | None => (("", exit_error), w)
      end
  | ConfigSet file property value =>
      (("", None), set_config (insert (file, property) value) w)
  | RevParse rev =>
      if bool_decide (rev ∈ refs w) then ((rev +:+ nl, None), w)
      else ((rev +:+ nl, exit_error), w)
  | Checkout branch =>
      if bool_decide (branch ∈ refs w)
      then (("", None), set_branch (refs w) branch w)
      else (("", exit_error), w)
  | CheckoutNew branch start =>
      if bool_decide (branch ∉ refs w) && bool_decide (start ∈ refs w)
      then (("", None), set_branch ({[branch]} ∪ refs w) branch w)
      else (("", exit_error), w)
  end.

(** [exec.Command("git", args...)] run to completion: the command line is
    logged; it fails without effect when the environment says so or when git
    does not know it.  What git itself prints on the terminal is not
    recorded. *)
Definition run_git (args : list string) : M (string * error) :=
  fun w =>
    let w := add_log args w in
    if fails w args then (("", exit_error), w)
    else match parse_git args with
         | Some c => git_step c w
         | None => (("", exit_error), w)
         end.

(** [cmd.Output()]: standard output and error. *)
Definition Output (args : list string) : M (string * error) := run_git args.

(** [cmd.Run()]: the error only. *)
Definition Run (args : list string) : M error :=
  '(_, err) ← run_git args; mret err.

Definition Fprintf_Stderr (s : string) : M unit := fun w => (tt, add_stderr s w).
Definition Printf (s : string) : M unit := fun w => (tt, add_stdout s w).

(** [os.ExpandEnv("$NAME")]: the value of the variable, empty when unset. *)
Definition Getenv (name : string) : M string :=
  fun w => (default "" (environ w !! name), w).

(** [os.Open(pairsFile)] and [ReadAuthorsByUsername] (pair.go:134-141,
    300-316); parsing YAML is left to the world. *)
Definition ReadAuthors (pairsFile : string) : M (gmap string string * error) :=
  fun w => (authors w pairsFile, w).

Definition LookupReverseDNSNamesByInterface (interfaceName : string)
    : M (list string * error) :=
  fun w => (dnsNames w interfaceName, w).

(** ** The effectful functions of [pair.go] *)

(** [GitConfig] (pair.go:280-291). *)
Definition GitConfig (configFile property : string) : M (string * error) :=
  '(output, err) ← Output ["config"; "--file"; configFile; property];
  match err with
  | Some e => mret ("", Some e)
  | None => mret (TrimRight output (String CR (String LF "")), None)
  end.

(** [SetGitConfig] (pair.go:293-298). *)
Definition SetGitConfig (configFile property value : string) : M error :=
  Run ["config"; "--file"; configFile; property; value].

(** [PrintCurrentPairedUsers] (pair.go:108-127). *)
Definition PrintCurrentPairedUsers (configFile : string) : M bool :=
  '(name, err) ← GitConfig configFile "user.name";
  match err with
  | Some e =>
      Fprintf_Stderr ("error: unable to get current git author name: " +:+ e +:+ nl);;
      mret false
  | None =>
      '(email, err) ← GitConfig configFile "user.email";
      match err with
      | Some e =>
          Fprintf_Stderr ("error: unable to get current git author email: " +:+ e +:+ nl);;
          mret false
      | None =>
          Printf (name +:+ " <" +:+ email +:+ ">" +:+ nl);;
          mret true
      end
  end.

(** [SetAndPrintNewPairedUsers] (pair.go:129-173). *)
Definition SetAndPrintNewPairedUsers (pairsFile configFile emailTemplate : string)
    (usernames : list string) : M bool :=
  '(authorMap, err) ← ReadAuthors pairsFile;
  match err with
  | Some e =>
      Fprintf_Stderr ("error: unable to read authors from file (" +:+ pairsFile
                      +:+ "): " +:+ e);;
      mret false
  | None =>
      let usernames := sort_Strings usernames in
      let '(email, err) := EmailAddressForUsernames emailTemplate usernames in
      let '(name, err) :=
        match err with
        | None => NamesForUsernames usernames authorMap
        | Some _ => ("", err)
        end in
      match err with
      | Some e => Fprintf_Stderr ("error: " +:+ e +:+ nl);; mret false
      | None =>
          err ← SetGitConfig configFile "user.name" name;
          match err with
          | Some e =>
              Fprintf_Stderr ("error: unable to set current git author name: "
                              +:+ e +:+ nl);;
              mret false
          | None =>
              err ← SetGitConfig configFile "user.email" email;
              match err with
              | Some e =>
                  Fprintf_Stderr ("error: unable to set current git author name: "
                                  +:+ e +:+ nl);;
                  mret false
              | None => PrintCurrentPairedUsers configFile
              end
          end
      end
  end.

(** [SwitchToPairBranch] (pair.go:175-224). *)
Definition SwitchToPairBranch (configFile branch emailTemplate : string) : M bool :=
  '(email, err) ← GitConfig configFile "user.email";
  match err with
  | Some _ =>
      Fprintf_Stderr ("error: unable to get current git author email from config file: "
                      +:+ configFile +:+ nl);;
      mret false
  | None =>
      let '(templateUsername, _, err) := SplitEmail emailTemplate in
      match err with
      | Some _ =>
          Fprintf_Stderr ("error: unable to parse template email address: "
                          +:+ emailTemplate +:+ nl);;
          mret false
      | None =>
          let '(usernames, _, err) := SplitEmail email in
          match err with
          | Some _ =>
              Fprintf_Stderr ("error: unable to parse email address: " +:+ email +:+ nl);;
              mret false
          | None =>
              let usernames := TrimPrefix usernames (templateUsername +:+ "+") in
              let fullBranch := usernames +:+ "/" +:+ branch in
              err ← Run ["rev-parse"; fullBranch];
              let args := ["checkout"] in
              let args :=
                match err with
                | Some _ => args ++ ["-b"; fullBranch; "master"]
                | None => args ++ [fullBranch]
                end in
              err ← Run args;
              match err with
              | Some _ =>
                  Fprintf_Stderr ("error: unable to check out git branch: "
                                  +:+ fullBranch +:+ nl);;
                  mret false
              | None => mret true
              end
          end
      end
  end.

(** [GetDefaultEmailTemplate] (pair.go:226-241): the loop over the DNS names,
    then the function. *)
Fixpoint GetDefaultEmailTemplate_loop (dnsNames : list string) : option string :=
  match dnsNames with
  | [] => None
  | dnsName :: rest =>
      let hostnameParts := Split dnsName "." in
      if Nat.leb 3 (length hostnameParts)
      then Some ("git@" +:+
                 Join (take 2 (drop (length hostnameParts - 3) hostnameParts)) ".")
      else GetDefaultEmailTemplate_loop rest
  end.

Definition GetDefaultEmailTemplate : M (string * error) :=
  '(dnsNames, err) ← LookupReverseDNSNamesByInterface "en0";
  match err with
  | Some e => mret ("", Some e)
  | None =>
      match GetDefaultEmailTemplate_loop dnsNames with
      | Some template => mret (template, None)
      | None =>
          mret ("", Some ("expected a hostname to be a fully-qualified domain name: "
                          +:+ Join dnsNames ","))
      end
  end.

(** The exit status of the process: [os.Exit(1)] after a failure, 0
    otherwise. *)
Definition exit_status (ok : bool) : nat := if ok then 0 else 1.

(** [main] (pair.go:62-106), after [flag.Parse]: [branch] is the value of
    the [-b] flag and [args] is [flag.Args()].  The result is the exit status
    of the process. *)
Definition main (branch : string) (args : list string) : M nat :=
  configFile ← Getenv "PAIR_GIT_CONFIG";
  configFile ←
    (if String.eqb configFile ""
     then home ← Getenv "HOME"; mret (home +:+ "/.gitconfig_local")
     else mret configFile);
  emailTemplate ← Getenv "PAIR_EMAIL";
  '(emailTemplate, err) ←
    (if String.eqb emailTemplate ""
     then GetDefaultEmailTemplate
     else mret (emailTemplate, None));
  match err with
  | Some _ =>
      Fprintf_Stderr ("error: please set $PAIR_EMAIL to configure the pair email template"
                      +:+ nl);;
      mret 1
  | None =>
      if negb (String.eqb branch "")
      then
        ok ← SwitchToPairBranch configFile branch emailTemplate;
        mret (exit_status ok)
      else
        let usernames := args in
        if Nat.eqb (length usernames) 0
        then
          ok ← PrintCurrentPairedUsers configFile;
          mret (exit_status ok)
        else
          pairsFile ← Getenv "PAIR_FILE";
          pairsFile ←
            (if String.eqb pairsFile ""
             then home ← Getenv "HOME"; mret (home +:+ "/.pairs")
             else mret pairsFile);
          ok ← SetAndPrintNewPairedUsers pairsFile configFile emailTemplate usernames;
          mret (exit_status ok)
  end.

(** * Part II: specification vocabulary *)

(** [strings.Count(s, c)] for a single byte [c]. *)
Fixpoint Count (s : string) (c : ascii) : nat :=
  match s with
  | EmptyString => 0
  | String d s' => (if Ascii.eqb d c then 1 else 0) + Count s' c
  end.

(** An address with exactly one "@". *)
Definition well_formed (email : string) : Prop := Count email "@" = 1.

(** The git command lines run by [m] from world [w]. *)
Definition issued {A} (m : M A) (w : World) : list (list string) :=
  drop (length (log w)) (log (m w).2).

(** A command line that is not a [git config] assignment. *)
Definition no_write (args : list string) : Prop :=
  ∀ file property value, args ≠ ["config"; "--file"; file; property; value].

(** [w'] comes from [w] without any change to the config files and without
    any [git config] assignment having been run. *)
Definition frame (w w' : World) : Prop :=
  config w' = config w ∧
  ∃ cmds, log w' = log w ++ cmds ∧ Forall no_write cmds.

(** A computation that never writes the store. *)
Definition read_only {A} (m : M A) : Prop := ∀ w, frame w (m w).2.

(** The value of [fullBranch] at pair.go:197. *)
Definition fullBranch_of (templateUsername usernames branch : string) : string :=
  TrimPrefix usernames (templateUsername +:+ "+") +:+ "/" +:+ branch.

(** Whether [git rev-parse rev] succeeds in [w]. *)
Definition rev_parse_ok (w : World) (rev : string) : bool :=
  negb (fails w ["rev-parse"; rev]) && bool_decide (rev ∈ refs w).

(** The arguments of the second git command (pair.go:203-211), [found]
    telling whether [git rev-parse] succeeded. *)
Definition checkout_args (found : bool) (fullBranch : string) : list string :=
  if found then ["checkout"; fullBranch] else ["checkout"; "-b"; fullBranch; "master"].

(** The cutset of [GitConfig] (pair.go:290): carriage return and line
    feed. *)
Definition CRLF : string := String CR (String LF "").

(** The last byte of a string. *)
Fixpoint last_byte (s : string) : option ascii :=
  match s with
  | EmptyString => None
  | String c EmptyString => Some c
  | String _ s' => last_byte s'
  end.

(** All the bytes of [s] are in [cutset]. *)
Fixpoint only_cutset (s cutset : string) : bool :=
  match s with
  | EmptyString => true
  | String c s' => in_cutset c cutset && only_cutset s' cutset
  end.

(** [m] takes every world [w] to a world related to [w] by [R]. *)
Definition keeps {A} (R : World → World → Prop) (m : M A) : Prop :=
  ∀ w, R w (m w).2.

(** Relations between the world before and the world after that hold across
    sequencing and printing. *)
Class Observation (R : World → World → Prop) : Prop := {
  obs_refl w : R w w;
  obs_trans w1 w2 w3 : R w1 w2 → R w2 w3 → R w1 w3;
  obs_stdout s w : R w (add_stdout s w);
  obs_stderr s w : R w (add_stderr s w);
}.

(** The git command lines run between [w] and [w'] all satisfy [P]. *)
Definition log_extends (P : list string → Prop) (w w' : World) : Prop :=
  ∃ cmds, log w' = log w ++ cmds ∧ Forall P cmds.

(** The branches are the same in [w] and [w']. *)
Definition same_branches (w w' : World) : Prop :=
  refs w' = refs w ∧ head w' = head w.

(** Every git command line that [m] runs satisfies [P], from any world. *)
Definition only_runs {A} (P : list string → Prop) (m : M A) : Prop :=
  keeps (log_extends P) m.

(** A command line that, if it is a [git config] one, is on [file]. *)
Definition addresses (file : string) (args : list string) : Prop :=
  ∀ file' rest, args = "config" :: "--file" :: file' :: rest → file' = file.

(** A [git config] command line on [file]. *)
Definition config_on (file : string) (args : list string) : Prop :=
  ∃ rest, args = "config" :: "--file" :: file :: rest.

(** A read of the stored email, a [git rev-parse] or a [git checkout]. *)
Definition branch_command (file : string) (args : list string) : Prop :=
  args = ["config"; "--file"; file; "user.email"] ∨
  (∃ rev, args = ["rev-parse"; rev]) ∨
  (∃ rest, args = "checkout" :: rest).

(** The config file [main] works on (pair.go:65-68). *)
Definition config_file_of (w : World) : string :=
  match environ w !! "PAIR_GIT_CONFIG" with
  | Some (String c f) => String c f
  | _ => default "" (environ w !! "HOME") +:+ "/.gitconfig_local"
  end.

(** The pairs file [main] reads (pair.go:97-100). *)
Definition pairs_file_of (w : World) : string :=
  match environ w !! "PAIR_FILE" with
  | Some (String c f) => String c f
  | _ => default "" (environ w !! "HOME") +:+ "/.pairs"
  end.

(** The full name of an alias in a directory, empty when absent. *)
Definition full_name (authorMap : gmap string string) (username : string) : string :=
  default "" (authorMap !! username).

(** An alias that [EmailAddressForUsernames] encodes without ambiguity
    under the template local-part [user]. *)
Definition plain_alias (user alias : string) : Prop :=
  Count alias "@" = 0 ∧ Count alias "+" = 0 ∧ alias ≠ user.

(** The local-part of the address that [EmailAddressForUsernames] builds
    from a template whose local-part is [user] (pair.go:329-336). *)
Definition encoded_local (user : string) (usernames : list string) : string :=
  match usernames with
  | [] => user
  | [username] => username
  | _ => user +:+ "+" +:+ Join usernames "+"
  end.

(** No command is made to fail by the environment. *)
Definition reliable (w : World) : Prop := ∀ args, fails w args = false.

(** The world after a synchronization that went through: the two
    assignments, the two reads, and the line printed. *)
Definition synced_world (configFile name email : string) (w : World) : World :=
  add_stdout (TrimRight name CRLF +:+ " <" +:+ TrimRight email CRLF +:+ ">" +:+ nl)
    (add_log ["config"; "--file"; configFile; "user.email"]
       (add_log ["config"; "--file"; configFile; "user.name"]
          (set_config (insert (configFile, "user.email") email)
             (add_log ["config"; "--file"; configFile; "user.email"; email]
                (set_config (insert (configFile, "user.name") name)
                   (add_log ["config"; "--file"; configFile; "user.name"; name] w)))))).

(** ** Sample data *)

(** The directory of pair_test.go. *)
Definition bluths : gmap string string :=
  <["mb" := "Michael Bluth"]> {["lb" := "Lindsay Bluth"]}.

(** A repository on branch master whose config file "cfg" holds the given
    properties, where no command is made to fail. *)
Definition sample_world (properties : list (string * string)) : World :=
  mkWorld (list_to_map (prod_map (pair "cfg") id <$> properties))
          {["master"]} "master"
          (λ _, (bluths, None)) (λ _, ([], None)) ∅ (λ _, false) [] [] [].

(** A repository whose stored author is Michael Bluth. *)
Definition solo_world : World :=
  sample_world [("user.name", "Michael Bluth"); ("user.email", "mb@example.com")].

(** A repository whose stored email is that of the pair lb and mb. *)
Definition paired_world : World :=
  sample_world [("user.email", "git+lb+mb@example.com")].

(** A repository where nobody is paired: the stored email is the template. *)
Definition unpaired_world : World :=
  sample_world [("user.email", "git@example.com")].

(** A world where only the assignment of the pair's email is made to fail. *)
Definition email_locked_world : World :=
  mkWorld ∅ {["master"]} "master" (λ _, (bluths, None)) (λ _, ([], None)) ∅
    (λ args, bool_decide (args = ["config"; "--file"; "cfg"; "user.email";
                                  "git+lb+mb@example.com"]))
    [] [] [].

(** A repository whose stored email, in the default config file of user
    gob, is that of the pair lb and mb, with the template in PAIR_EMAIL. *)
Definition pair_email_world : World :=
  mkWorld {[ ("/home/gob/.gitconfig_local", "user.email") := "git+lb+mb@example.com" ]}
          {["master"]} "master"
          (λ _, (bluths, None)) (λ _, ([], None))
          (<["PAIR_EMAIL" := "git@example.com"]> {["HOME" := "/home/gob"]})
          (λ _, false) [] [] [].

(** A repository whose primary branch is "main", and says so in its
    configuration, with the pair lb and mb as author. *)
Definition main_branch_world : World :=
  mkWorld (list_to_map [(("cfg", "user.email"), "git+lb+mb@example.com");
                        (("cfg", "init.defaultBranch"), "main")])
          {["main"]} "main"
          (λ _, (bluths, None)) (λ _, ([], None))
          {["PAIR_GIT_CONFIG" := "cfg"]} (λ _, false) [] [] [].

(** * Part III: theorems *)

(** ** The tests of pair_test.go *)

Example ExampleSplitEmail :
  SplitEmail "a@b.com" = ("a", "b.com", None) /\
  SplitEmail "" = ("", "", Some "invalid email address: ") /\
  SplitEmail "a@b@c" = ("", "", Some "invalid email address: a@b@c").
Proof. repeat split; reflexivity. Qed.

Example ExampleEmailAddressForUsernames :
  EmailAddressForUsernames "git@example.com" [] = ("git@example.com", None) /\
  EmailAddressForUsernames "git@example.com" ["mb"] = ("mb@example.com", None) /\
  EmailAddressForUsernames "git@example.com" ["lb"; "mb"]
    = ("git+lb+mb@example.com", None).
Proof. repeat split; reflexivity. Qed.

Example TestNamesForUsernames :
  NamesForUsernames [] ∅ = ("", None) /\
  NamesForUsernames ["mb"] {["mb" := "Michael Bluth"]} = ("Michael Bluth", None) /\
  NamesForUsernames ["lb"; "mb"]
      (<["mb" := "Michael Bluth"]> {["lb" := "Lindsay Bluth"]})
    = ("Lindsay Bluth and Michael Bluth", None) /\
  NamesForUsernames ["lb"] {["mb" := "Michael Bluth"]}
    = ("", Some "no such username: lb").
Proof. repeat split; vm_compute; reflexivity. Qed.

Example library_examples :
  Split "a@b@c" "@" = ["a"; "b"; "c"] ∧
  Split "" "@" = [""] ∧
  Split "@" "@" = [""; ""] ∧
  Join ["lb"; "mb"; "gob"] "+" = "lb+mb+gob" ∧
  TrimPrefix "git+lb+mb" "git+" = "lb+mb" ∧
  TrimPrefix "mb" "git+" = "mb" ∧
  TrimRight ("mb@example.com" +:+ String CR nl) (String CR nl) = "mb@example.com" ∧
  TrimRight (String LF "a b" +:+ nl +:+ nl) (String CR nl) = String LF "a b".
Proof. repeat split; reflexivity. Qed.

Example GetDefaultEmailTemplate_example :
  GetDefaultEmailTemplate_loop ["localhost"; "mac42.corp.example.com."]
  = Some "git@example.com".
Proof. reflexivity. Qed.

Example TestGitConfig :
  (GitConfig "cfg" "user.name"
     (SetGitConfig "cfg" "user.name" "Michael Bluth" (sample_world [])).2).1
  = ("Michael Bluth", None).
Proof. vm_compute. reflexivity. Qed.

Example ExamplePrintCurrentPairedUsers :
  stdout (PrintCurrentPairedUsers "cfg" solo_world).2
  = ["Michael Bluth <mb@example.com>" +:+ nl].
Proof. vm_compute. reflexivity. Qed.

Example sort_Strings_example :
  sort_Strings ["mb"; "lb"; "alice"; "Zed"] = ["Zed"; "alice"; "lb"; "mb"].
Proof. reflexivity. Qed.

(** ** Strings *)

Lemma app_cons (a : ascii) (s t : string) :
  String a s +:+ t = String a (s +:+ t).
Proof. reflexivity. Qed.

Lemma app_assoc_string (s t u : string) : (s +:+ t) +:+ u = s +:+ t +:+ u.
Proof.
  induction s as [|a s IH]; [done|].
  change (String a ((s +:+ t) +:+ u) = String a (s +:+ t +:+ u)). by rewrite IH.
Qed.

Lemma Split_nonempty (s : string) (sep : ascii) :
  ∃ p ps, Split s sep = p :: ps.
Proof.
  induction s as [|c s (p & ps & IH)]; simpl; [by eauto|].
  destruct (Ascii.eqb c sep); rewrite ?IH; eauto.
Qed.

Lemma Split_length (s : string) (sep : ascii) :
  length (Split s sep) = S (Count s sep).
Proof.
  induction s as [|c s IH]; simpl; [done|].
  destruct (Split_nonempty s sep) as (p & ps & E). rewrite E in IH |- *.
  destruct (Ascii.eqb c sep); simpl in *; lia.
Qed.

Lemma Split_Join (s : string) (sep : ascii) :
  Join (Split s sep) (String sep "") = s.
Proof.
  induction s as [|c s IH]; simpl; [done|].
  destruct (Split_nonempty s sep) as (p & ps & E). rewrite E in IH |- *.
  destruct (Ascii.eqb_spec c sep) as [->|_].
  - change (Join ("" :: p :: ps) (String sep ""))
      with (String sep (Join (p :: ps) (String sep ""))).
    by rewrite IH.
  - destruct ps as [|q ps]; simpl in *; [by rewrite IH|].
    by rewrite app_cons, IH.
Qed.

Lemma Split_pieces (s : string) (sep : ascii) :
  Forall (λ p, Count p sep = 0) (Split s sep).
Proof.
  induction s as [|c s IH]; simpl; [by repeat constructor|].
  destruct (Split_nonempty s sep) as (p & ps & E). rewrite E in IH |- *.
  destruct (Ascii.eqb c sep) eqn:Hc.
  - by constructor.
  - inv IH. constructor; [simpl; by rewrite Hc|done].
Qed.

Lemma Split_free (s : string) (sep : ascii) :
  Count s sep = 0 → Split s sep = [s].
Proof.
  induction s as [|c s IH]; simpl; [done|].
  destruct (Ascii.eqb c sep); [done|]. intros H. by rewrite IH.
Qed.

Lemma Split_app (l r : string) (sep : ascii) :
  Count l sep = 0 → Split (l +:+ String sep r) sep = l :: Split r sep.
Proof.
  induction l as [|c l IH]; simpl.
  - intros _. change (Split (String sep r) sep = EmptyString :: Split r sep).
    simpl. by rewrite Ascii.eqb_refl.
  - destruct (Ascii.eqb c sep); [done|]. intros H. by rewrite IH.
Qed.

Lemma HasPrefix_app (p r : string) : HasPrefix (p +:+ r) p = true.
Proof.
  induction p as [|a p IH]; [done|]. rewrite app_cons. simpl.
  by rewrite Ascii.eqb_refl, IH.
Qed.

Lemma HasPrefix_inv (s p : string) :
  HasPrefix s p = true → ∃ r, s = p +:+ r.
Proof.
  revert s. induction p as [|a p IH]; intros s; [by exists s|].
  destruct s as [|b s]; simpl; [done|].
  destruct (Ascii.eqb_spec a b) as [->|_]; [|done]. simpl.
  intros (r & ->)%IH. by exists r.
Qed.

Lemma slice_from_app (p r : string) : slice_from (String.length p) (p +:+ r) = r.
Proof. induction p as [|a p IH]; [done|]. rewrite app_cons. by simpl. Qed.

Lemma TrimPrefix_app (p r : string) : TrimPrefix (p +:+ r) p = r.
Proof. unfold TrimPrefix. by rewrite HasPrefix_app, slice_from_app. Qed.

Lemma TrimPrefix_absent (s p : string) :
  (∀ r, s ≠ p +:+ r) → TrimPrefix s p = s.
Proof.
  intros H. unfold TrimPrefix. destruct (HasPrefix s p) eqn:E; [|done].
  apply HasPrefix_inv in E as [r ->]. by destruct (H r).
Qed.

(** ** [SplitEmail] *)

Lemma SplitEmail_well_formed (user host : string) :
  Count user "@" = 0 → Count host "@" = 0 →
  SplitEmail (user +:+ "@" +:+ host) = (user, host, None).
Proof.
  intros Hu Hh. unfold SplitEmail.
  change (user +:+ "@" +:+ host) with (user +:+ String "@" host).
  by rewrite Split_app, Split_free.
Qed.

Lemma SplitEmail_ok_inv (email user host : string) :
  SplitEmail email = (user, host, None) →
  email = user +:+ "@" +:+ host ∧ Count user "@" = 0 ∧ Count host "@" = 0.
Proof.
  unfold SplitEmail. intros H.
  pose proof (Split_Join email "@") as HJ.
  pose proof (Split_pieces email "@") as HP.
  destruct (Split email "@") as [|u [|h [|? ?]]]; simplify_eq.
  apply Forall_cons in HP as [Hu HP]. apply Forall_cons in HP as [Hh _]. done.
Qed.

Lemma SplitEmail_ok_iff (email : string) :
  well_formed email ↔ (SplitEmail email).2 = None.
Proof.
  unfold well_formed, SplitEmail.
  pose proof (Split_length email "@") as HL.
  destruct (Split email "@") as [|u [|h [|? ?]]]; simpl in *; split; (done || lia).
Qed.

Lemma SplitEmail_error (email : string) :
  (SplitEmail email).2 ≠ None →
  SplitEmail email = ("", "", Some ("invalid email address: " +:+ email)).
Proof.
  unfold SplitEmail. by destruct (Split email "@") as [|u [|h [|? ?]]].
Qed.

(** C5. [SplitEmail] returns the pair (local-part, domain) exactly when the
    address contains exactly one "@", and then the address is the local-part,
    "@", the domain; otherwise it fails with the error
    [invalid email address: <input>].  In particular "a@b.com" splits into
    ("a", "b.com"), while "" and "a@b@c" are rejected. *)
Theorem SplitEmail_exactly_one_at :
  (∀ email : string,
      (well_formed email ∧
       ∃ user host, SplitEmail email = (user, host, None) ∧
                    email = user +:+ "@" +:+ host ∧
                    Count user "@" = 0 ∧ Count host "@" = 0)
      ∨ (Count email "@" ≠ 1 ∧
         SplitEmail email = ("", "", Some ("invalid email address: " +:+ email)))) ∧
  SplitEmail "a@b.com" = ("a", "b.com", None) ∧
  (SplitEmail "").2 = Some "invalid email address: " ∧
  (SplitEmail "a@b@c").2 = Some "invalid email address: a@b@c".
Proof.
  split; [|by repeat split].
  intros email. destruct (decide (Count email "@" = 1)) as [Hwf|Hwf].
  - left. split; [done|].
    apply SplitEmail_ok_iff in Hwf.
    destruct (SplitEmail email) as [[user host] err] eqn:E. simpl in Hwf. subst err.
    exists user, host. split; [done|]. by apply SplitEmail_ok_inv.
  - right. split; [done|]. apply SplitEmail_error.
    intros H. by apply Hwf, SplitEmail_ok_iff.
Qed.

(** ** [EmailAddressForUsernames] *)

(** C1. For a template L@D with exactly one "@": no alias gives the template
    back, one alias [a] gives a@D (the template's local-part is dropped), and
    two or more give L+a1+...+an@D with the aliases in the caller's order. *)
Theorem EmailAddressForUsernames_cases (L D : string) :
  Count L "@" = 0 → Count D "@" = 0 →
  EmailAddressForUsernames (L +:+ "@" +:+ D) [] = (L +:+ "@" +:+ D, None) ∧
  (∀ a, EmailAddressForUsernames (L +:+ "@" +:+ D) [a] = (a +:+ "@" +:+ D, None)) ∧
  (∀ a1 a2 rest,
      EmailAddressForUsernames (L +:+ "@" +:+ D) (a1 :: a2 :: rest)
      = (L +:+ "+" +:+ (a1 +:+ "+" +:+ Join (a2 :: rest) "+") +:+ "@" +:+ D, None)).
Proof.
  intros HL HD. unfold EmailAddressForUsernames.
  rewrite (SplitEmail_well_formed L D HL HD). done.
Qed.

Lemma EmailAddressForUsernames_cases_witness :
  EmailAddressForUsernames "git@x.com" [] = ("git@x.com", None) ∧
  EmailAddressForUsernames "git@x.com" ["mb"] = ("mb@x.com", None) ∧
  EmailAddressForUsernames "git@x.com" ["lb"; "mb"] = ("git+lb+mb@x.com", None).
Proof.
  destruct (EmailAddressForUsernames_cases "git" "x.com" eq_refl eq_refl)
    as (H0 & H1 & H2).
  split; [exact H0|]. split; [exact (H1 "mb")|exact (H2 "lb" "mb" [])].
Defined.

Lemma EmailAddressForUsernames_error (emailTemplate : string) (usernames : list string) :
  ¬ well_formed emailTemplate →
  EmailAddressForUsernames emailTemplate usernames
  = ("", Some ("invalid email address: " +:+ emailTemplate)).
Proof.
  intros H. unfold EmailAddressForUsernames. rewrite SplitEmail_error; [done|].
  intros E. by apply H, SplitEmail_ok_iff.
Qed.

Lemma EmailAddressForUsernames_ok (emailTemplate : string) (usernames : list string) :
  well_formed emailTemplate →
  ∃ email, EmailAddressForUsernames emailTemplate usernames = (email, None).
Proof.
  intros H%SplitEmail_ok_iff. unfold EmailAddressForUsernames.
  destruct (SplitEmail emailTemplate) as [[user host] err]. simpl in H. subst err.
  destruct usernames as [|? [|? ?]]; eauto.
Qed.

(** ** [NamesForUsernames] *)

Lemma NamesForUsernames_loop_resolved (authorMap : gmap string string)
    (usernames names acc : list string) :
  Forall2 (λ u n, authorMap !! u = Some n) usernames names →
  NamesForUsernames_loop usernames authorMap acc = (acc ++ names, None).
Proof.
  intros H. revert acc. induction H as [|u n us ns Hu _ IH]; intros acc; simpl.
  - by rewrite app_nil_r.
  - rewrite Hu, IH. by rewrite <-app_assoc.
Qed.

(** On a miss the loop stops at the first alias, in list order, that the
    directory lacks. *)
Lemma NamesForUsernames_loop_missing (authorMap : gmap string string)
    (usernames acc : list string) :
  (∃ u, u ∈ usernames ∧ authorMap !! u = None) →
  ∃ pre u post names,
    usernames = pre ++ u :: post ∧
    Forall (λ v, is_Some (authorMap !! v)) pre ∧ authorMap !! u = None ∧
    NamesForUsernames_loop usernames authorMap acc
    = (names, Some ("no such username: " +:+ u)).
Proof.
  revert acc. induction usernames as [|v us IH]; intros acc (u & Hin & Hu).
  - by apply elem_of_nil in Hin.
  - simpl. destruct (authorMap !! v) as [n|] eqn:Hv.
    + apply elem_of_cons in Hin as [->|Hin]; [congruence|].
      destruct (IH (acc ++ [n])) as (pre & u' & post & names & -> & ? & ? & ?);
        [by eauto|].
      exists (v :: pre), u', post, names. split_and!; [done| |done..].
      constructor; [by rewrite Hv|done].
    + exists [], v, us, acc. by split_and!.
Qed.

Lemma NamesForUsernames_missing (authorMap : gmap string string)
    (usernames : list string) :
  (∃ u, u ∈ usernames ∧ authorMap !! u = None) →
  ∃ pre u post,
    usernames = pre ++ u :: post ∧
    Forall (λ v, is_Some (authorMap !! v)) pre ∧ authorMap !! u = None ∧
    NamesForUsernames usernames authorMap = ("", Some ("no such username: " +:+ u)).
Proof.
  intros H.
  destruct (NamesForUsernames_loop_missing authorMap usernames [] H)
    as (pre & u & post & names & E & Hpre & Hu & Hloop).
  exists pre, u, post. split_and!; [done..|].
  unfold NamesForUsernames. rewrite Hloop.
  rewrite E, length_app. simpl. by replace (length pre + S (length post)) with
    (S (length pre + length post)) by lia.
Qed.

(** C6. When every alias of the list is in the directory, the result is the
    full names joined with " and " in the order of the list, without error;
    the empty list gives the empty string. *)
Theorem NamesForUsernames_resolved (authorMap : gmap string string)
    (usernames names : list string) :
  Forall2 (λ u n, authorMap !! u = Some n) usernames names →
  NamesForUsernames usernames authorMap = (Join names " and ", None) ∧
  NamesForUsernames [] authorMap = ("", None).
Proof.
  intros H. split; [|done]. unfold NamesForUsernames.
  destruct usernames as [|u us].
  - by apply Forall2_nil_inv_l in H as ->.
  - pose proof (NamesForUsernames_loop_resolved authorMap (u :: us) names [] H) as E.
    simpl in E. simpl. by rewrite E.
Qed.

Lemma NamesForUsernames_resolved_witness :
  NamesForUsernames ["lb"; "mb"]
    (<["mb" := "Michael Bluth"]> {["lb" := "Lindsay Bluth"]})
  = ("Lindsay Bluth and Michael Bluth", None) ∧
  NamesForUsernames ["mb"] {["mb" := "Michael Bluth"]} = ("Michael Bluth", None) ∧
  NamesForUsernames [] (∅ : gmap string string) = ("", None).
Proof.
  split; [|split].
  - apply (NamesForUsernames_resolved
             (<["mb" := "Michael Bluth"]> {["lb" := "Lindsay Bluth"]})
             ["lb"; "mb"] ["Lindsay Bluth"; "Michael Bluth"]).
    repeat constructor.
  - apply (NamesForUsernames_resolved {["mb" := "Michael Bluth"]}
             ["mb"] ["Michael Bluth"]).
    repeat constructor.
  - apply (NamesForUsernames_resolved ∅ [] []). constructor.
Defined.

(** ** [sort.Strings] *)

Lemma ltb_true_le (a b : string) : String.ltb a b = true → String.le a b.
Proof.
  unfold String.le, String.ltb, String.leb.
  destruct (String.compare a b); simpl; done.
Qed.

Lemma ltb_false_le (a b : string) : String.ltb a b = false → String.le b a.
Proof.
  unfold String.le, String.ltb, String.leb. rewrite (String.compare_antisym a b).
  destruct (String.compare b a); simpl; done.
Qed.

Lemma sort_insert_Permutation (x : string) (l : list string) :
  sort_insert x l ≡ₚ x :: l.
Proof.
  induction l as [|y l IH]; simpl; [done|].
  destruct (String.ltb y x); [|done]. rewrite IH. apply perm_swap.
Qed.

Lemma sort_Strings_Permutation (l : list string) : sort_Strings l ≡ₚ l.
Proof.
  induction l as [|x l IH]; simpl; [done|].
  by rewrite sort_insert_Permutation, IH.
Qed.

Lemma sort_insert_HdRel (x y : string) (l : list string) :
  String.le y x → HdRel String.le y l → HdRel String.le y (sort_insert x l).
Proof.
  intros Hyx Hl. destruct l as [|z l]; simpl; [by constructor|].
  inv Hl. destruct (String.ltb z x); by constructor.
Qed.

Lemma sort_insert_Sorted (x : string) (l : list string) :
  Sorted String.le l → Sorted String.le (sort_insert x l).
Proof.
  induction 1 as [|y l Hl IH Hy]; simpl; [by repeat constructor|].
  destruct (String.ltb y x) eqn:E.
  - constructor; [done|]. by apply sort_insert_HdRel, Hy; apply ltb_true_le.
  - repeat constructor; [done..|]. by apply ltb_false_le.
Qed.

Lemma sort_Strings_Sorted (l : list string) : Sorted String.le (sort_Strings l).
Proof.
  induction l as [|x l IH]; simpl; [constructor|]. by apply sort_insert_Sorted.
Qed.

(** Whatever algorithm [sort.Strings] runs, its result is an increasing
    rearrangement of its argument, and there is only one. *)
Lemma sort_Strings_unique (l l' : list string) :
  Sorted String.le l' → l' ≡ₚ l → l' = sort_Strings l.
Proof.
  intros Hs Hp. apply (Sorted_unique String.le); [done|apply sort_Strings_Sorted|].
  by rewrite sort_Strings_Permutation.
Qed.

Lemma sort_Strings_perm (l1 l2 : list string) :
  l1 ≡ₚ l2 → sort_Strings l1 = sort_Strings l2.
Proof.
  intros Hp. apply sort_Strings_unique; [apply sort_Strings_Sorted|].
  by rewrite sort_Strings_Permutation.
Qed.

Lemma sort_Strings_elem_of (u : string) (l : list string) :
  u ∈ sort_Strings l ↔ u ∈ l.
Proof. by rewrite sort_Strings_Permutation. Qed.

(** ** Running git *)

Ltac unfold_M := unfold mbind, M_bind, mret, M_ret in *.

Lemma parse_git_inv (args : list string) (c : GitCmd) :
  parse_git args = Some c → args = git_args c.
Proof.
  unfold parse_git. intros H.
  destruct args as [|a [|b [|c0 [|d [|e [|? ?]]]]]]; try done;
    repeat (match type of H with
            | context [String.eqb ?x ?y] =>
                destruct (String.eqb_spec x y); simpl in H
            end);
    by simplify_eq.
Qed.

Lemma run_git_fails (args : list string) (w : World) :
  fails w args = true → run_git args w = (("", exit_error), add_log args w).
Proof. intros H. unfold run_git. simpl. by rewrite H. Qed.

Lemma run_git_ok (args : list string) (c : GitCmd) (w : World) :
  fails w args = false → parse_git args = Some c →
  run_git args w = git_step c (add_log args w).
Proof. intros H E. unfold run_git. simpl fails. by rewrite H, E. Qed.

Lemma SetGitConfig_ok (configFile property value : string) (w : World) :
  fails w ["config"; "--file"; configFile; property; value] = false →
  SetGitConfig configFile property value w
  = (None, set_config (insert (configFile, property) value)
             (add_log ["config"; "--file"; configFile; property; value] w)).
Proof.
  intros H. unfold SetGitConfig, Run. unfold_M.
  by rewrite (run_git_ok _ (ConfigSet configFile property value) w H eq_refl).
Qed.

Lemma SetGitConfig_fails (configFile property value : string) (w : World) :
  fails w ["config"; "--file"; configFile; property; value] = true →
  SetGitConfig configFile property value w
  = (exit_error, add_log ["config"; "--file"; configFile; property; value] w).
Proof.
  intros H. unfold SetGitConfig, Run. unfold_M. by rewrite (run_git_fails _ w H).
Qed.

(** [GitConfig] only adds its command line to the log. *)
Lemma GitConfig_world (configFile property : string) (w : World) :
  (GitConfig configFile property w).2
  = add_log ["config"; "--file"; configFile; property] w.
Proof.
  unfold GitConfig, Output. unfold_M.
  destruct (fails w ["config"; "--file"; configFile; property]) eqn:Hf.
  - by rewrite (run_git_fails _ w Hf).
  - rewrite (run_git_ok _ (ConfigGet configFile property) w Hf eq_refl). simpl.
    by destruct (config w !! (configFile, property)).
Qed.

Lemma GitConfig_eq (configFile property : string) (w : World) (r : string * error) :
  (GitConfig configFile property w).1 = r →
  GitConfig configFile property w
  = (r, add_log ["config"; "--file"; configFile; property] w).
Proof.
  intros <-. rewrite <-GitConfig_world. by destruct (GitConfig configFile property w).
Qed.

(** Running git logs the command line, leaves the output streams alone, and
    changes the config files only through an assignment. *)
Lemma run_git_frame (args : list string) (w : World) :
  let w' := (run_git args w).2 in
  log w' = log w ++ [args] ∧ stdout w' = stdout w ∧ stderr w' = stderr w ∧
  (no_write args → config w' = config w).
Proof.
  unfold run_git. simpl fails. destruct (fails w args); [done|].
  destruct (parse_git args) as [c|] eqn:E; [|done].
  apply parse_git_inv in E as ->.
  destruct c; simpl; repeat case_match; repeat split; try done.
  intros H. by destruct (H file property value).
Qed.

Lemma Run_frame (args : list string) (w : World) :
  let w' := (Run args w).2 in
  log w' = log w ++ [args] ∧ stdout w' = stdout w ∧ stderr w' = stderr w ∧
  (no_write args → config w' = config w).
Proof.
  pose proof (run_git_frame args w) as H. unfold Run. unfold_M.
  by destruct (run_git args w) as [[out err] w'].
Qed.

(** [git rev-parse] succeeds on the names the repository resolves, unless the
    environment makes it fail. *)
Lemma Run_rev_parse (rev : string) (w : World) :
  (Run ["rev-parse"; rev] w).1
  = if negb (fails w ["rev-parse"; rev]) && bool_decide (rev ∈ refs w)
    then None else exit_error.
Proof.
  unfold Run. unfold_M. destruct (fails w ["rev-parse"; rev]) eqn:Hf.
  - by rewrite (run_git_fails _ w Hf).
  - rewrite (run_git_ok _ (RevParse rev) w Hf eq_refl). simpl.
    by destruct (bool_decide (rev ∈ refs w)).
Qed.

Lemma issued_app {A} (m : M A) (w : World) (cmds : list (list string)) :
  log (m w).2 = log w ++ cmds → issued m w = cmds.
Proof. intros H. unfold issued. rewrite H. apply drop_app_length. Qed.

(** ** The synchronizer: [SetAndPrintNewPairedUsers] *)

(** C2. Two alias lists with the same elements in different orders give the
    same composite identity: the sorted lists are equal, hence so are the
    derived email, the derived display name, and the whole run of the
    synchronizer from any world. *)
Theorem sync_order_independent (pairsFile configFile emailTemplate : string)
    (S1 S2 : list string) (w : World) :
  S1 ≡ₚ S2 →
  EmailAddressForUsernames emailTemplate (sort_Strings S1)
  = EmailAddressForUsernames emailTemplate (sort_Strings S2) ∧
  (∀ authorMap,
      NamesForUsernames (sort_Strings S1) authorMap
      = NamesForUsernames (sort_Strings S2) authorMap) ∧
  SetAndPrintNewPairedUsers pairsFile configFile emailTemplate S1 w
  = SetAndPrintNewPairedUsers pairsFile configFile emailTemplate S2 w.
Proof.
  intros Hp. unfold SetAndPrintNewPairedUsers.
  by rewrite (sort_Strings_perm S1 S2 Hp).
Qed.

Lemma sync_order_independent_witness :
  EmailAddressForUsernames "git@example.com" (sort_Strings ["mb"; "lb"])
  = EmailAddressForUsernames "git@example.com" (sort_Strings ["lb"; "mb"]) ∧
  (∀ authorMap,
      NamesForUsernames (sort_Strings ["mb"; "lb"]) authorMap
      = NamesForUsernames (sort_Strings ["lb"; "mb"]) authorMap) ∧
  SetAndPrintNewPairedUsers "pairs" "cfg" "git@example.com" ["mb"; "lb"] (sample_world [])
  = SetAndPrintNewPairedUsers "pairs" "cfg" "git@example.com" ["lb"; "mb"] (sample_world []).
Proof.
  apply (sync_order_independent "pairs" "cfg" "git@example.com"
           ["mb"; "lb"] ["lb"; "mb"] (sample_world [])).
  apply perm_swap.
Defined.

Example ExampleSetAndPrintNewPairedUsers :
  let '(ok, w) :=
    SetAndPrintNewPairedUsers "pairs" "cfg" "git@example.com" ["mb"] (sample_world []) in
  ok = true ∧
  stdout w = ["Michael Bluth <mb@example.com>" +:+ nl] ∧
  config w !! ("cfg", "user.name") = Some "Michael Bluth" ∧
  config w !! ("cfg", "user.email") = Some "mb@example.com".
Proof. vm_compute. done. Qed.

Example sync_sorts_example :
  (SetAndPrintNewPairedUsers "pairs" "cfg" "git@example.com" ["mb"; "lb"]
     (sample_world [])).2.(stdout)
  = ["Lindsay Bluth and Michael Bluth <git+lb+mb@example.com>" +:+ nl].
Proof. vm_compute. done. Qed.

(** C9. When the write of user.name succeeds and the following write of
    user.email fails, the synchronizer returns false and prints an error; the
    name stays written (the store is the old one with the new name), and the
    only commands run are the two assignments, once each: no roll-back and
    no second attempt.  This holds for every alias list. *)
Theorem sync_partial_write_kept (pairsFile configFile emailTemplate : string)
    (usernames : list string) (authorMap : gmap string string)
    (name email : string) (w : World) :
  authors w pairsFile = (authorMap, None) →
  EmailAddressForUsernames emailTemplate (sort_Strings usernames) = (email, None) →
  NamesForUsernames (sort_Strings usernames) authorMap = (name, None) →
  fails w ["config"; "--file"; configFile; "user.name"; name] = false →
  fails w ["config"; "--file"; configFile; "user.email"; email] = true →
  (SetAndPrintNewPairedUsers pairsFile configFile emailTemplate usernames w).1 = false ∧
  config (SetAndPrintNewPairedUsers pairsFile configFile emailTemplate usernames w).2
  = <[(configFile, "user.name") := name]> (config w) ∧
  issued (SetAndPrintNewPairedUsers pairsFile configFile emailTemplate usernames) w
  = [["config"; "--file"; configFile; "user.name"; name];
     ["config"; "--file"; configFile; "user.email"; email]] ∧
  stderr (SetAndPrintNewPairedUsers pairsFile configFile emailTemplate usernames w).2
  = stderr w ++ ["error: unable to set current git author name: exit status 1" +:+ nl].
Proof.
  intros Ha He Hn Hf1 Hf2.
  assert (SetAndPrintNewPairedUsers pairsFile configFile emailTemplate usernames w
          = (false,
            add_stderr ("error: unable to set current git author name: exit status 1" +:+ nl)
              (add_log ["config"; "--file"; configFile; "user.email"; email]
                 (set_config (insert (configFile, "user.name") name)
                    (add_log ["config"; "--file"; configFile; "user.name"; name] w)))))
    as E.
  { unfold SetAndPrintNewPairedUsers, ReadAuthors. unfold_M.
    rewrite Ha, He, Hn. rewrite (SetGitConfig_ok _ _ _ w Hf1).
    by rewrite SetGitConfig_fails. }
  split_and!; [by rewrite E..| |by rewrite E].
  apply issued_app. rewrite E. simpl. by rewrite <-app_assoc.
Qed.

Lemma sync_partial_write_kept_witness :
  (SetAndPrintNewPairedUsers "pairs" "cfg" "git@example.com" ["mb"; "lb"]
     email_locked_world).1 = false ∧
  config (SetAndPrintNewPairedUsers "pairs" "cfg" "git@example.com" ["mb"; "lb"]
            email_locked_world).2
  = <[("cfg", "user.name") := "Lindsay Bluth and Michael Bluth"]> ∅ ∧
  issued (SetAndPrintNewPairedUsers "pairs" "cfg" "git@example.com" ["mb"; "lb"])
    email_locked_world
  = [["config"; "--file"; "cfg"; "user.name"; "Lindsay Bluth and Michael Bluth"];
     ["config"; "--file"; "cfg"; "user.email"; "git+lb+mb@example.com"]] ∧
  stderr (SetAndPrintNewPairedUsers "pairs" "cfg" "git@example.com" ["mb"; "lb"]
            email_locked_world).2
  = ["error: unable to set current git author name: exit status 1" +:+ nl].
Proof.
  apply (sync_partial_write_kept "pairs" "cfg" "git@example.com" ["mb"; "lb"] bluths
           "Lindsay Bluth and Michael Bluth" "git+lb+mb@example.com" email_locked_world);
    reflexivity.
Defined.

(** C3 (as amended). With an alias that the directory lacks, the synchronizer
    returns false, prints one error line and does nothing else: the final
    world is the initial one plus that line, so no git command is run and
    the store is untouched.  When the template is well formed the line names
    a missing alias, the least one in byte order; when it is not, the
    template's error takes precedence. *)
Theorem sync_unknown_alias_no_write (pairsFile configFile emailTemplate : string)
    (usernames : list string) (authorMap : gmap string string) (u : string)
    (w : World) :
  authors w pairsFile = (authorMap, None) →
  u ∈ usernames → authorMap !! u = None →
  ∃ msg,
    SetAndPrintNewPairedUsers pairsFile configFile emailTemplate usernames w
    = (false, add_stderr ("error: " +:+ msg +:+ nl) w) ∧
    config (SetAndPrintNewPairedUsers pairsFile configFile emailTemplate usernames w).2
    = config w ∧
    issued (SetAndPrintNewPairedUsers pairsFile configFile emailTemplate usernames) w
    = [] ∧
    (well_formed emailTemplate →
     ∃ u', u' ∈ usernames ∧ authorMap !! u' = None ∧
           (∀ v, v ∈ usernames → authorMap !! v = None → String.le u' v) ∧
           msg = "no such username: " +:+ u') ∧
    (¬ well_formed emailTemplate →
     msg = "invalid email address: " +:+ emailTemplate).
Proof.
  intros Ha Hin Hu.
  assert (∀ msg,
    SetAndPrintNewPairedUsers pairsFile configFile emailTemplate usernames w
    = (false, add_stderr ("error: " +:+ msg +:+ nl) w) →
    config (SetAndPrintNewPairedUsers pairsFile configFile emailTemplate usernames w).2
    = config w ∧
    issued (SetAndPrintNewPairedUsers pairsFile configFile emailTemplate usernames) w
    = []) as Hframe.
  { intros msg E. split; [by rewrite E|].
    apply issued_app. rewrite E. simpl. by rewrite app_nil_r. }
  destruct (decide (well_formed emailTemplate)) as [Hwf|Hwf].
  - destruct (EmailAddressForUsernames_ok emailTemplate (sort_Strings usernames) Hwf)
      as [email He].
    destruct (NamesForUsernames_missing authorMap (sort_Strings usernames))
      as (pre & u' & post & Es & Hpre & Hu' & Hn).
    { exists u. by rewrite sort_Strings_elem_of. }
    exists ("no such username: " +:+ u').
    assert (SetAndPrintNewPairedUsers pairsFile configFile emailTemplate usernames w
            = (false, add_stderr ("error: " +:+ ("no such username: " +:+ u') +:+ nl) w))
      as E.
    { unfold SetAndPrintNewPairedUsers, ReadAuthors. unfold_M.
      by rewrite Ha, He, Hn. }
    split; [done|]. pose proof (Hframe _ E) as [? ?]. split_and!; [done..| |done].
    intros _. exists u'. split_and!; [|done| |done].
    + apply sort_Strings_elem_of. rewrite Es.
      apply elem_of_app. right. apply list_elem_of_here.
    + intros v Hv Hmiss. apply sort_Strings_elem_of in Hv. rewrite Es in Hv.
      pose proof (sort_Strings_Sorted usernames) as HS. rewrite Es in HS.
      apply (Sorted_StronglySorted String.le) in HS.
      apply StronglySorted_app_1_r in HS. apply StronglySorted_cons in HS as [HS _].
      apply elem_of_app in Hv as [Hv|Hv].
      * rewrite Forall_forall in Hpre. apply Hpre in Hv as [? ?]. congruence.
      * apply elem_of_cons in Hv as [->|Hv]; [done|].
        rewrite Forall_forall in HS. by apply HS.
  - exists ("invalid email address: " +:+ emailTemplate).
    assert (SetAndPrintNewPairedUsers pairsFile configFile emailTemplate usernames w
            = (false, add_stderr ("error: " +:+ ("invalid email address: " +:+ emailTemplate)
                                  +:+ nl) w)) as E.
    { unfold SetAndPrintNewPairedUsers, ReadAuthors. unfold_M.
      by rewrite Ha, EmailAddressForUsernames_error. }
    split; [done|]. pose proof (Hframe _ E) as [? ?]. by split_and!.
Qed.

Lemma sync_unknown_alias_no_write_witness :
  ∃ msg,
    SetAndPrintNewPairedUsers "pairs" "cfg" "git@example.com" ["zz"; "mb"; "gob"]
      (sample_world [])
    = (false, add_stderr ("error: " +:+ msg +:+ nl) (sample_world [])) ∧
    config (SetAndPrintNewPairedUsers "pairs" "cfg" "git@example.com" ["zz"; "mb"; "gob"]
              (sample_world [])).2
    = config (sample_world []) ∧
    issued (SetAndPrintNewPairedUsers "pairs" "cfg" "git@example.com" ["zz"; "mb"; "gob"])
      (sample_world [])
    = [] ∧
    (well_formed "git@example.com" →
     ∃ u', u' ∈ ["zz"; "mb"; "gob"] ∧ bluths !! u' = None ∧
           (∀ v, v ∈ ["zz"; "mb"; "gob"] → bluths !! v = None → String.le u' v) ∧
           msg = "no such username: " +:+ u') ∧
    (¬ well_formed "git@example.com" →
     msg = "invalid email address: " +:+ "git@example.com").
Proof.
  apply (sync_unknown_alias_no_write "pairs" "cfg" "git@example.com"
           ["zz"; "mb"; "gob"] bluths "zz" (sample_world [])).
  - reflexivity.
  - apply list_elem_of_here.
  - reflexivity.
Defined.

Example sync_unknown_alias_example :
  SetAndPrintNewPairedUsers "pairs" "cfg" "git@example.com" ["zz"; "mb"; "gob"]
    (sample_world [])
  = (false, add_stderr ("error: no such username: gob" +:+ nl) (sample_world [])).
Proof. vm_compute. done. Qed.

(** C3 as stated fails when the template is malformed: the alias "zz" is not
    in the directory, yet the error reported is the template's, not the
    alias's. *)
Lemma sync_unknown_alias_malformed_template :
  authors (sample_world []) "pairs" = (bluths, None) ∧
  bluths !! "zz" = None ∧
  SetAndPrintNewPairedUsers "pairs" "cfg" "git" ["zz"] (sample_world [])
  = (false, add_stderr ("error: invalid email address: git" +:+ nl) (sample_world [])) ∧
  ¬ ∃ u, stderr (SetAndPrintNewPairedUsers "pairs" "cfg" "git" ["zz"]
                   (sample_world [])).2
         = ["error: no such username: " +:+ u +:+ nl].
Proof.
  split_and!; [done..|]. intros [u Hu]. vm_compute in Hu. discriminate.
Qed.

(** ** The branch switch: [SwitchToPairBranch] *)

(** Once the stored email and the template are read and split, the function
    runs [git rev-parse fullBranch] and one checkout; its only possible
    failure is that of the checkout. *)
Lemma SwitchToPairBranch_run (configFile branch emailTemplate email : string)
    (templateUsername templateHost usernames host : string) (w : World) :
  (GitConfig configFile "user.email" w).1 = (email, None) →
  SplitEmail emailTemplate = (templateUsername, templateHost, None) →
  SplitEmail email = (usernames, host, None) →
  ∃ ok w',
    SwitchToPairBranch configFile branch emailTemplate w = (ok, w') ∧
    log w' = log w ++
      [["config"; "--file"; configFile; "user.email"];
       ["rev-parse"; fullBranch_of templateUsername usernames branch];
       checkout_args (rev_parse_ok w (fullBranch_of templateUsername usernames branch))
                     (fullBranch_of templateUsername usernames branch)] ∧
    config w' = config w ∧
    stderr w' = stderr w ++
      (if ok then []
       else ["error: unable to check out git branch: "
             +:+ fullBranch_of templateUsername usernames branch +:+ nl]).
Proof.
  intros Hg Ht He. unfold SwitchToPairBranch. unfold_M.
  rewrite (GitConfig_eq _ _ _ _ Hg), Ht, He.
  fold (fullBranch_of templateUsername usernames branch).
  set (fb := fullBranch_of templateUsername usernames branch).
  set (w0 := add_log ["config"; "--file"; configFile; "user.email"] w).
  pose proof (Run_rev_parse fb w0) as Hr.
  pose proof (Run_frame ["rev-parse"; fb] w0) as (Hl1 & _ & He1 & Hc1).
  destruct (Run ["rev-parse"; fb] w0) as [err1 w1]. simpl in Hr, Hl1, He1, Hc1.
  change (negb (fails w ["rev-parse"; fb]) && bool_decide (fb ∈ refs w))
    with (rev_parse_ok w fb) in Hr.
  assert ((match err1 with
           | Some _ => ["checkout"] ++ ["-b"; fb; "master"]
           | None => ["checkout"] ++ [fb]
           end) = checkout_args (rev_parse_ok w fb) fb) as ->.
  { rewrite Hr. by destruct (rev_parse_ok w fb). }
  set (args := checkout_args (rev_parse_ok w fb) fb).
  assert (no_write args) as Hnw.
  { intros f p v. unfold args, checkout_args. by destruct (rev_parse_ok w fb). }
  pose proof (Run_frame args w1) as (Hl2 & _ & He2 & Hc2).
  destruct (Run args w1) as [err2 w2]. simpl in Hl2, He2, Hc2.
  assert (config w2 = config w) as Hc.
  { rewrite Hc2, Hc1; [done| |done]. by intros f p v. }
  assert (log w2 = log w ++ [["config"; "--file"; configFile; "user.email"];
                             ["rev-parse"; fb]; args]) as Hl.
  { rewrite Hl2, Hl1. simpl. by rewrite <-!app_assoc. }
  destruct err2 as [e|].
  - eexists false, _. split; [done|]. simpl. by rewrite Hl, Hc, He2, He1.
  - eexists true, _. split; [done|]. simpl. by rewrite Hl, Hc, He2, He1, app_nil_r.
Qed.

(** C4. With a stored email EL@ED and a template TL@TD, each with exactly one
    "@", the branch derivation queries and checks out the branch whose name
    is the stored local-part without its leading TL+"+" (when it starts that
    way), then "/", then the branch topic. *)
Theorem branch_name_strips_template_prefix (configFile branch : string)
    (TL TD EL ED : string) (w : World) :
  Count TL "@" = 0 → Count TD "@" = 0 → Count EL "@" = 0 → Count ED "@" = 0 →
  (GitConfig configFile "user.email" w).1 = (EL +:+ "@" +:+ ED, None) →
  ∃ name checkout,
    issued (SwitchToPairBranch configFile branch (TL +:+ "@" +:+ TD)) w
    = [["config"; "--file"; configFile; "user.email"]; ["rev-parse"; name]; checkout] ∧
    (checkout = ["checkout"; name] ∨ checkout = ["checkout"; "-b"; name; "master"]) ∧
    (∀ rest, EL = TL +:+ "+" +:+ rest → name = rest +:+ "/" +:+ branch) ∧
    ((∀ rest, EL ≠ TL +:+ "+" +:+ rest) → name = EL +:+ "/" +:+ branch).
Proof.
  intros HTL HTD HEL HED Hg.
  destruct (SwitchToPairBranch_run configFile branch (TL +:+ "@" +:+ TD)
              (EL +:+ "@" +:+ ED) TL TD EL ED w Hg)
    as (ok & w' & E & Hl & _ & _); [by apply SplitEmail_well_formed..|].
  exists (fullBranch_of TL EL branch),
    (checkout_args (rev_parse_ok w (fullBranch_of TL EL branch))
       (fullBranch_of TL EL branch)).
  split_and!.
  - apply issued_app. by rewrite E.
  - unfold checkout_args. destruct (rev_parse_ok _ _); by eauto.
  - intros rest ->. unfold fullBranch_of.
    by rewrite <-(app_assoc_string TL "+" rest), TrimPrefix_app.
  - intros Hno. unfold fullBranch_of. rewrite TrimPrefix_absent; [done|].
    intros rest ->. apply (Hno rest), app_assoc_string.
Qed.

Lemma branch_name_strips_template_prefix_witness :
  ∃ name checkout,
    issued (SwitchToPairBranch "cfg" "ONCALL-843" "git@example.com") paired_world
    = [["config"; "--file"; "cfg"; "user.email"]; ["rev-parse"; name]; checkout] ∧
    (checkout = ["checkout"; name] ∨ checkout = ["checkout"; "-b"; name; "master"]) ∧
    (∀ rest, "git+lb+mb" = "git" +:+ "+" +:+ rest → name = rest +:+ "/" +:+ "ONCALL-843") ∧
    ((∀ rest, "git+lb+mb" ≠ "git" +:+ "+" +:+ rest) →
     name = "git+lb+mb" +:+ "/" +:+ "ONCALL-843").
Proof.
  apply (branch_name_strips_template_prefix "cfg" "ONCALL-843"
           "git" "example.com" "git+lb+mb" "example.com" paired_world);
    reflexivity.
Defined.

Example SwitchToPairBranch_example :
  issued (SwitchToPairBranch "cfg" "ONCALL-843" "git@example.com") paired_world
  = [["config"; "--file"; "cfg"; "user.email"];
     ["rev-parse"; "lb+mb/ONCALL-843"];
     ["checkout"; "-b"; "lb+mb/ONCALL-843"; "master"]] ∧
  (SwitchToPairBranch "cfg" "ONCALL-843" "git@example.com" paired_world).1 = true ∧
  head (SwitchToPairBranch "cfg" "ONCALL-843" "git@example.com" paired_world).2
  = "lb+mb/ONCALL-843".
Proof. vm_compute. done. Qed.

(** C10. When the stored local-part EL does not start with TL+"+" (for
    instance when the stored email is the template itself), the derivation
    reports no error and uses EL as it is: the branch queried and checked out
    is EL/topic, and the only error the run can report is a failed
    checkout. *)
Theorem branch_name_without_template_prefix (configFile branch : string)
    (TL TD EL ED : string) (w : World) :
  Count TL "@" = 0 → Count TD "@" = 0 → Count EL "@" = 0 → Count ED "@" = 0 →
  (GitConfig configFile "user.email" w).1 = (EL +:+ "@" +:+ ED, None) →
  (∀ rest, EL ≠ TL +:+ "+" +:+ rest) →
  ∃ checkout,
    issued (SwitchToPairBranch configFile branch (TL +:+ "@" +:+ TD)) w
    = [["config"; "--file"; configFile; "user.email"];
       ["rev-parse"; EL +:+ "/" +:+ branch]; checkout] ∧
    (checkout = ["checkout"; EL +:+ "/" +:+ branch] ∨
     checkout = ["checkout"; "-b"; EL +:+ "/" +:+ branch; "master"]) ∧
    ((SwitchToPairBranch configFile branch (TL +:+ "@" +:+ TD) w).1 = true ∧
     stderr (SwitchToPairBranch configFile branch (TL +:+ "@" +:+ TD) w).2 = stderr w
     ∨
     (SwitchToPairBranch configFile branch (TL +:+ "@" +:+ TD) w).1 = false ∧
     stderr (SwitchToPairBranch configFile branch (TL +:+ "@" +:+ TD) w).2
     = stderr w ++ ["error: unable to check out git branch: "
                    +:+ (EL +:+ "/" +:+ branch) +:+ nl]).
Proof.
  intros HTL HTD HEL HED Hg Hno.
  destruct (SwitchToPairBranch_run configFile branch (TL +:+ "@" +:+ TD)
              (EL +:+ "@" +:+ ED) TL TD EL ED w Hg)
    as (ok & w' & E & Hl & _ & Herr); [by apply SplitEmail_well_formed..|].
  assert (fullBranch_of TL EL branch = EL +:+ "/" +:+ branch) as Hfb.
  { unfold fullBranch_of. rewrite TrimPrefix_absent; [done|].
    intros rest ->. apply (Hno rest), app_assoc_string. }
  rewrite Hfb in Hl, Herr.
  exists (checkout_args (rev_parse_ok w (EL +:+ "/" +:+ branch)) (EL +:+ "/" +:+ branch)).
  split_and!.
  - apply issued_app. by rewrite E.
  - unfold checkout_args. destruct (rev_parse_ok _ _); by eauto.
  - rewrite E. simpl. destruct ok; [left|right]; split; [done| |done..].
    by rewrite Herr, app_nil_r.
Qed.

Lemma branch_name_without_template_prefix_witness :
  ∃ checkout,
    issued (SwitchToPairBranch "cfg" "X" "git@example.com") unpaired_world
    = [["config"; "--file"; "cfg"; "user.email"]; ["rev-parse"; "git/X"]; checkout] ∧
    (checkout = ["checkout"; "git/X"] ∨ checkout = ["checkout"; "-b"; "git/X"; "master"]) ∧
    ((SwitchToPairBranch "cfg" "X" "git@example.com" unpaired_world).1 = true ∧
     stderr (SwitchToPairBranch "cfg" "X" "git@example.com" unpaired_world).2 = []
     ∨
     (SwitchToPairBranch "cfg" "X" "git@example.com" unpaired_world).1 = false ∧
     stderr (SwitchToPairBranch "cfg" "X" "git@example.com" unpaired_world).2
     = [] ++ ["error: unable to check out git branch: " +:+ "git/X" +:+ nl]).
Proof.
  apply (branch_name_without_template_prefix "cfg" "X"
           "git" "example.com" "git" "example.com" unpaired_world);
    try reflexivity.
  intros rest H. vm_compute in H. discriminate H.
Defined.

Example SwitchToPairBranch_unpaired_example :
  SwitchToPairBranch "cfg" "X" "git@example.com" unpaired_world
  = (true,
     set_branch {["git/X"; "master"]} "git/X"
       (add_log ["checkout"; "-b"; "git/X"; "master"]
          (add_log ["rev-parse"; "git/X"]
             (add_log ["config"; "--file"; "cfg"; "user.email"] unpaired_world)))).
Proof. vm_compute. done. Qed.

(** C8 (as amended). After the branch name is derived: when [git rev-parse]
    resolves it, the existing branch is checked out; when it does not (the
    name is unknown, or the query itself fails), the branch is created and
    checked out from the start point "master".  That name is a constant of
    the program: it is the same in every world, whatever the configuration
    files and the environment variables hold. *)
Theorem branch_switch_checkout_or_create (configFile branch emailTemplate email : string)
    (w : World) :
  (GitConfig configFile "user.email" w).1 = (email, None) →
  well_formed emailTemplate → well_formed email →
  ∃ fullBranch,
    fullBranch = fullBranch_of (SplitEmail emailTemplate).1.1 (SplitEmail email).1.1 branch ∧
    (fullBranch ∈ refs w → fails w ["rev-parse"; fullBranch] = false →
     issued (SwitchToPairBranch configFile branch emailTemplate) w
     = [["config"; "--file"; configFile; "user.email"];
        ["rev-parse"; fullBranch];
        ["checkout"; fullBranch]]) ∧
    (fullBranch ∉ refs w ∨ fails w ["rev-parse"; fullBranch] = true →
     issued (SwitchToPairBranch configFile branch emailTemplate) w
     = [["config"; "--file"; configFile; "user.email"];
        ["rev-parse"; fullBranch];
        ["checkout"; "-b"; fullBranch; "master"]]).
Proof.
  intros Hg Ht%SplitEmail_ok_iff He%SplitEmail_ok_iff.
  destruct (SplitEmail emailTemplate) as [[tu th] terr] eqn:Et.
  destruct (SplitEmail email) as [[eu eh] eerr] eqn:Ee.
  simpl in Ht, He. subst terr eerr. simpl.
  destruct (SwitchToPairBranch_run configFile branch emailTemplate email
              tu th eu eh w Hg Et Ee) as (ok & w' & E & Hl & _ & _).
  exists (fullBranch_of tu eu branch). split; [done|]. split.
  - intros Hin Hf. apply issued_app. rewrite E. simpl. rewrite Hl.
    unfold rev_parse_ok. by rewrite Hf, bool_decide_eq_true_2.
  - intros Hno. apply issued_app. rewrite E. simpl. rewrite Hl.
    unfold rev_parse_ok. destruct Hno as [Hno|Hf].
    + rewrite bool_decide_eq_false_2 by done. by rewrite andb_false_r.
    + by rewrite Hf.
Qed.

Lemma branch_switch_checkout_or_create_witness :
  ∃ fullBranch,
    fullBranch = fullBranch_of "git" "git+lb+mb" "ONCALL-843" ∧
    (fullBranch ∈ refs paired_world →
     fails paired_world ["rev-parse"; fullBranch] = false →
     issued (SwitchToPairBranch "cfg" "ONCALL-843" "git@example.com") paired_world
     = [["config"; "--file"; "cfg"; "user.email"];
        ["rev-parse"; fullBranch];
        ["checkout"; fullBranch]]) ∧
    (fullBranch ∉ refs paired_world ∨
     fails paired_world ["rev-parse"; fullBranch] = true →
     issued (SwitchToPairBranch "cfg" "ONCALL-843" "git@example.com") paired_world
     = [["config"; "--file"; "cfg"; "user.email"];
        ["rev-parse"; fullBranch];
        ["checkout"; "-b"; fullBranch; "master"]]).
Proof.
  apply (branch_switch_checkout_or_create "cfg" "ONCALL-843" "git@example.com"
           "git+lb+mb@example.com" paired_world); reflexivity.
Defined.

(** C8 as stated fails: the configured primary branch is "main", yet the new
    branch is rooted at "master", and the checkout fails for want of it. *)
Lemma branch_switch_root_not_configured :
  config main_branch_world !! ("cfg", "init.defaultBranch") = Some "main" ∧
  refs main_branch_world = {["main"]} ∧
  SwitchToPairBranch "cfg" "ONCALL-843" "git@example.com" main_branch_world
  = (false,
     add_stderr ("error: unable to check out git branch: lb+mb/ONCALL-843" +:+ nl)
       (add_log ["checkout"; "-b"; "lb+mb/ONCALL-843"; "master"]
          (add_log ["rev-parse"; "lb+mb/ONCALL-843"]
             (add_log ["config"; "--file"; "cfg"; "user.email"] main_branch_world)))) ∧
  ["checkout"; "-b"; "lb+mb/ONCALL-843"; "main"]
    ∉ issued (SwitchToPairBranch "cfg" "ONCALL-843" "git@example.com") main_branch_world.
Proof.
  split_and!; [done|done|by vm_compute|].
  intros H. vm_compute in H. repeat (apply elem_of_cons in H as [H|H]; [discriminate H|]).
  by apply elem_of_nil in H.
Qed.

(** ** Computations that do not write the store *)

Lemma frame_refl (w : World) : frame w w.
Proof. split; [done|]. exists []. by rewrite app_nil_r. Qed.

Lemma frame_same (w w' : World) :
  config w' = config w → log w' = log w → frame w w'.
Proof. intros Hc Hl. split; [done|]. exists []. by rewrite app_nil_r. Qed.

Lemma frame_trans (w1 w2 w3 : World) : frame w1 w2 → frame w2 w3 → frame w1 w3.
Proof.
  intros (Hc1 & l1 & Hl1 & F1) (Hc2 & l2 & Hl2 & F2). split; [congruence|].
  exists (l1 ++ l2). split; [by rewrite Hl2, Hl1, app_assoc|by apply Forall_app].
Qed.

Lemma read_only_ret {A} (a : A) : read_only (mret a : M A).
Proof. intros w. apply frame_refl. Qed.

Lemma read_only_bind {A B} (m : M A) (k : A → M B) :
  read_only m → (∀ a, read_only (k a)) → read_only (m ≫= k).
Proof.
  intros Hm Hk w. unfold_M. specialize (Hm w).
  destruct (m w) as [a w1]. by eapply frame_trans, Hk.
Qed.

Lemma read_only_Getenv (name : string) : read_only (Getenv name).
Proof. intros w. apply frame_refl. Qed.

Lemma read_only_ReadAuthors (pairsFile : string) : read_only (ReadAuthors pairsFile).
Proof. intros w. apply frame_refl. Qed.

Lemma read_only_LookupReverseDNSNamesByInterface (interfaceName : string) :
  read_only (LookupReverseDNSNamesByInterface interfaceName).
Proof. intros w. apply frame_refl. Qed.

Lemma read_only_Fprintf_Stderr (s : string) : read_only (Fprintf_Stderr s).
Proof. intros w. by apply frame_same. Qed.

Lemma read_only_Printf (s : string) : read_only (Printf s).
Proof. intros w. by apply frame_same. Qed.

Lemma read_only_run_git (args : list string) : no_write args → read_only (run_git args).
Proof.
  intros Hnw w. destruct (run_git_frame args w) as (Hl & _ & _ & Hc).
  split; [by apply Hc|]. exists [args]. split; [done|by constructor].
Qed.

Create HintDb read_only.
#[local] Hint Resolve read_only_Getenv read_only_ReadAuthors
  read_only_LookupReverseDNSNamesByInterface read_only_Fprintf_Stderr
  read_only_Printf read_only_run_git : read_only.

Ltac no_write_tac :=
  match goal with
  | |- no_write _ => repeat case_match; by intros ???
  end.

Ltac read_only_tac :=
  repeat first
    [ progress cbv zeta
    | apply read_only_ret
    | apply read_only_bind; [|intros ?]
    | match goal with
      | |- read_only (match ?x with _ => _ end) => destruct x
      end
    | solve [eauto with read_only]
    | apply read_only_run_git; no_write_tac ].

Lemma read_only_Run (args : list string) : no_write args → read_only (Run args).
Proof. intros H. unfold Run. read_only_tac. Qed.

Lemma read_only_GitConfig (configFile property : string) :
  read_only (GitConfig configFile property).
Proof. unfold GitConfig, Output. read_only_tac. Qed.

#[local] Hint Resolve read_only_Run read_only_GitConfig : read_only.

Lemma read_only_PrintCurrentPairedUsers (configFile : string) :
  read_only (PrintCurrentPairedUsers configFile).
Proof. unfold PrintCurrentPairedUsers. read_only_tac. Qed.

Lemma read_only_GetDefaultEmailTemplate : read_only GetDefaultEmailTemplate.
Proof. unfold GetDefaultEmailTemplate. read_only_tac. Qed.

Lemma read_only_SwitchToPairBranch (configFile branch emailTemplate : string) :
  read_only (SwitchToPairBranch configFile branch emailTemplate).
Proof.
  unfold SwitchToPairBranch. read_only_tac.
  all: apply read_only_Run; no_write_tac.
Qed.

#[local] Hint Resolve read_only_PrintCurrentPairedUsers
  read_only_GetDefaultEmailTemplate read_only_SwitchToPairBranch : read_only.

(** Without alias arguments [main] never reaches [SetAndPrintNewPairedUsers]. *)
Lemma read_only_main_no_aliases (branch : string) : read_only (main branch []).
Proof. unfold main. read_only_tac. Qed.

Lemma read_only_config {A} (m : M A) (w : World) :
  read_only m → config (m w).2 = config w.
Proof. intros H. by destruct (H w). Qed.

Lemma read_only_issued {A} (m : M A) (w : World) :
  read_only m → Forall no_write (issued m w).
Proof.
  intros H. destruct (H w) as (_ & cmds & Hl & F).
  by rewrite (issued_app m w cmds Hl).
Qed.

(** C7 (as amended). Report-only mode belongs to [main]: started without
    alias arguments it leaves every config file as it was and runs no
    [git config] assignment, with or without the -b flag.
    [SetAndPrintNewPairedUsers] itself does not look at the length of the
    list: given the empty list, a readable directory, a well-formed template
    and writes that succeed, it stores the empty name and the template as
    email. *)
Theorem report_only_without_aliases (branch : string) (w : World) :
  config (main branch [] w).2 = config w ∧
  Forall no_write (issued (main branch []) w) ∧
  (∀ (pairsFile configFile emailTemplate : string) (authorMap : gmap string string),
      authors w pairsFile = (authorMap, None) →
      well_formed emailTemplate →
      fails w ["config"; "--file"; configFile; "user.name"; ""] = false →
      fails w ["config"; "--file"; configFile; "user.email"; emailTemplate] = false →
      config (SetAndPrintNewPairedUsers pairsFile configFile emailTemplate [] w).2
      = <[(configFile, "user.email") := emailTemplate]>
          (<[(configFile, "user.name") := ""]> (config w))).
Proof.
  split_and!.
  - apply read_only_config, read_only_main_no_aliases.
  - apply read_only_issued, read_only_main_no_aliases.
  - intros pairsFile configFile emailTemplate authorMap Ha Hwf Hf1 Hf2.
    unfold SetAndPrintNewPairedUsers, ReadAuthors. unfold_M. rewrite Ha. simpl.
    apply SplitEmail_ok_iff in Hwf. unfold EmailAddressForUsernames.
    destruct (SplitEmail emailTemplate) as [[user host] err]. simpl in Hwf. subst err.
    change (NamesForUsernames [] authorMap) with ("", None : error).
    cbv beta iota. rewrite (SetGitConfig_ok _ _ _ w Hf1). rewrite SetGitConfig_ok by done.
    by rewrite read_only_config by apply read_only_PrintCurrentPairedUsers.
Qed.

Lemma report_only_without_aliases_witness :
  config (main "" [] solo_world).2 = config solo_world ∧
  Forall no_write (issued (main "" []) solo_world) ∧
  config (SetAndPrintNewPairedUsers "pairs" "cfg" "git@example.com" [] solo_world).2
  = <[("cfg", "user.email") := "git@example.com"]>
      (<[("cfg", "user.name") := ""]> (config solo_world)).
Proof.
  destruct (report_only_without_aliases "" solo_world) as (H1 & H2 & H3).
  split; [exact H1|]. split; [exact H2|].
  apply (H3 "pairs" "cfg" "git@example.com" bluths); reflexivity.
Defined.

(** C7 as stated fails for the synchronizer itself: with the empty list it
    overwrites the stored author by the empty name and the template. *)
Lemma sync_empty_aliases_writes :
  config solo_world !! ("cfg", "user.name") = Some "Michael Bluth" ∧
  config solo_world !! ("cfg", "user.email") = Some "mb@example.com" ∧
  (SetAndPrintNewPairedUsers "pairs" "cfg" "git@example.com" [] solo_world).1 = true ∧
  config (SetAndPrintNewPairedUsers "pairs" "cfg" "git@example.com" [] solo_world).2
    !! ("cfg", "user.name") = Some "" ∧
  config (SetAndPrintNewPairedUsers "pairs" "cfg" "git@example.com" [] solo_world).2
    !! ("cfg", "user.email") = Some "git@example.com" ∧
  issued (SetAndPrintNewPairedUsers "pairs" "cfg" "git@example.com" []) solo_world
  = [["config"; "--file"; "cfg"; "user.name"; ""];
     ["config"; "--file"; "cfg"; "user.email"; "git@example.com"];
     ["config"; "--file"; "cfg"; "user.name"];
     ["config"; "--file"; "cfg"; "user.email"]] ∧
  config (SetAndPrintNewPairedUsers "pairs" "cfg" "git@example.com" [] solo_world).2
  ≠ config solo_world.
Proof.
  split_and!; [vm_compute; reflexivity..|].
  intros H. apply (f_equal (λ m, m !! ("cfg", "user.name"))) in H.
  vm_compute in H. discriminate H.
Qed.

Example main_no_aliases_example :
  main "" [] (sample_world [("user.name", "Michael Bluth");
                            ("user.email", "mb@example.com")])
  = (1, add_stderr ("error: please set $PAIR_EMAIL to configure the pair email template"
                    +:+ nl)
          (sample_world [("user.name", "Michael Bluth");
                         ("user.email", "mb@example.com")])).
Proof. vm_compute. done. Qed.

(** * Part IV: further properties of the program *)

(** ** More on strings *)

Lemma string_app_length (s t : string) :
  String.length (s +:+ t) = String.length s + String.length t.
Proof. induction s as [|a s IH]; [done|]. rewrite app_cons. simpl. by rewrite IH. Qed.

Lemma Count_app (l r : string) (c : ascii) :
  Count (l +:+ r) c = Count l c + Count r c.
Proof. induction l as [|d l IH]; [done|]. rewrite app_cons. simpl. rewrite IH. lia. Qed.

Lemma Split_of_app (s t : string) (sep : ascii) :
  Split (s +:+ String sep t) sep
  = match Split s sep with
    | [] => Split t sep
    | p :: ps => (p :: ps) ++ Split t sep
    end.
Proof.
  induction s as [|c s IH].
  - simpl. change (EmptyString +:+ String sep t) with (String sep t). simpl.
    by rewrite Ascii.eqb_refl.
  - rewrite app_cons. simpl. rewrite IH.
    destruct (Split_nonempty s sep) as (p & ps & ->).
    by destruct (Ascii.eqb c sep).
Qed.

(** Splitting is the inverse of joining pieces that are free of the
    separator. *)
Lemma Split_of_Join (l : list string) (sep : ascii) :
  l ≠ [] → Forall (λ p, Count p sep = 0) l →
  Split (Join l (String sep "")) sep = l.
Proof.
  induction l as [|x l IH]; [done|]. intros _ Hf.
  apply Forall_cons in Hf as [Hx Hl]. destruct l as [|y l].
  - simpl. by apply Split_free.
  - change (Join (x :: y :: l) (String sep ""))
      with (x +:+ String sep (Join (y :: l) (String sep ""))).
    rewrite Split_app by done. by rewrite IH.
Qed.

Lemma Count_Join (l : list string) (sep : string) (c : ascii) :
  Forall (λ p, Count p c = 0) l → Count sep c = 0 → Count (Join l sep) c = 0.
Proof.
  intros Hl Hs. induction Hl as [|x l Hx _ IH]; [done|].
  destruct l as [|y l]; [done|].
  change (Join (x :: y :: l) sep) with (x +:+ sep +:+ Join (y :: l) sep).
  rewrite !Count_app. lia.
Qed.

Lemma TrimRight_only_cutset (t cutset : string) :
  only_cutset t cutset = true → TrimRight t cutset = "".
Proof.
  induction t as [|c t IH]; [done|]. simpl.
  intros [Hc Ht]%andb_prop. by rewrite IH, Hc.
Qed.

Lemma TrimRight_app_cutset (s t cutset : string) :
  only_cutset t cutset = true → TrimRight (s +:+ t) cutset = TrimRight s cutset.
Proof.
  intros Ht. induction s as [|c s IH].
  - by apply TrimRight_only_cutset.
  - rewrite app_cons. simpl. by rewrite IH.
Qed.

Lemma TrimRight_keep (s t cutset : string) (c : ascii) :
  in_cutset c cutset = false →
  TrimRight (s +:+ String c t) cutset = s +:+ String c (TrimRight t cutset).
Proof.
  intros Hc. induction s as [|d s IH].
  - change (EmptyString +:+ String c t) with (String c t). simpl.
    rewrite Hc. by destruct (TrimRight t cutset).
  - rewrite !app_cons. simpl. rewrite IH.
    by destruct s.
Qed.

Lemma TrimRight_last (s cutset : string) (c : ascii) :
  last_byte (TrimRight s cutset) = Some c → in_cutset c cutset = false.
Proof.
  revert c. induction s as [|d s IH]; intros c; [done|]. simpl.
  destruct (TrimRight s cutset) as [|e t] eqn:E.
  - destruct (in_cutset d cutset) eqn:Hd; [done|]. simpl. by intros [= <-].
  - intros H. by apply IH.
Qed.

Lemma TrimRight_fixed (s cutset : string) :
  (∀ c, last_byte s = Some c → in_cutset c cutset = false) →
  TrimRight s cutset = s.
Proof.
  induction s as [|d s IH]; [done|]. intros H. simpl.
  destruct s as [|e s].
  - simpl. by rewrite (H d eq_refl).
  - rewrite IH by (intros c Hc; by apply H). done.
Qed.

Lemma TrimRight_idemp (s cutset : string) :
  TrimRight (TrimRight s cutset) cutset = TrimRight s cutset.
Proof. apply TrimRight_fixed. intros c. apply TrimRight_last. Qed.

Lemma Count_TrimRight (s cutset : string) (c : ascii) :
  Count s c = 0 → Count (TrimRight s cutset) c = 0.
Proof.
  induction s as [|d s IH]; [done|]. simpl.
  destruct (Ascii.eqb d c) eqn:Hd; [done|]. simpl. intros H.
  destruct (TrimRight s cutset) as [|e t] eqn:E.
  - destruct (in_cutset d cutset); simpl; by rewrite ?Hd.
  - simpl in *. rewrite Hd. by apply IH.
Qed.

Lemma Count_Join_inv (l : list string) (sep : string) (c : ascii) :
  Count (Join l sep) c = 0 → Forall (λ p, Count p c = 0) l.
Proof.
  induction l as [|x l IH]; [by constructor|]. destruct l as [|y l].
  - simpl. by repeat constructor.
  - change (Join (x :: y :: l) sep) with (x +:+ sep +:+ Join (y :: l) sep).
    rewrite !Count_app. intros H. constructor; [lia|]. apply IH. lia.
Qed.

Lemma app_cancel_at (x y host : string) :
  Count x "@" = 0 → Count y "@" = 0 → Count host "@" = 0 →
  x +:+ "@" +:+ host = y +:+ "@" +:+ host → x = y.
Proof.
  intros Hx Hy Hh E.
  pose proof (SplitEmail_well_formed x host Hx Hh) as E1.
  pose proof (SplitEmail_well_formed y host Hy Hh) as E2.
  rewrite E in E1. congruence.
Qed.

(** ** More on [EmailAddressForUsernames] *)

Lemma EmailAddressForUsernames_local (L D : string) (usernames : list string) :
  Count L "@" = 0 → Count D "@" = 0 →
  EmailAddressForUsernames (L +:+ "@" +:+ D) usernames
  = (encoded_local L usernames +:+ "@" +:+ D, None).
Proof.
  intros HL HD. unfold EmailAddressForUsernames.
  rewrite (SplitEmail_well_formed L D HL HD).
  destruct usernames as [|a [|b l]]; [done..|].
  unfold encoded_local. set (J := Join (a :: b :: l) "+").
  by rewrite !app_assoc_string.
Qed.

(** X1. The address built for a template L@D has exactly one "@", and so
    can be split again, exactly when no alias contains "@". *)
Theorem encoded_email_well_formed_iff (L D : string) (usernames : list string) :
  Count L "@" = 0 → Count D "@" = 0 →
  well_formed (EmailAddressForUsernames (L +:+ "@" +:+ D) usernames).1
  ↔ Forall (λ a, Count a "@" = 0) usernames.
Proof.
  intros HL HD. unfold EmailAddressForUsernames, well_formed.
  rewrite (SplitEmail_well_formed L D HL HD).
  destruct usernames as [|a [|b l]].
  - change (Count (L +:+ "@" +:+ D) "@" = 1 ↔ Forall (λ a, Count a "@" = 0) []).
    rewrite !Count_app, HL, HD. split; [by constructor|done].
  - change (Count (a +:+ "@" +:+ D) "@" = 1 ↔ Forall (λ a, Count a "@" = 0) [a]).
    rewrite !Count_app, HD. change (Count "@" "@") with 1. split.
    + intros H. repeat constructor. lia.
    + intros [Ha _]%Forall_cons. lia.
  - pose proof (Count_Join_inv (a :: b :: l) "+" "@") as Hinv.
    pose proof (Count_Join (a :: b :: l) "+" "@") as Hjoin.
    change (Count (L +:+ "+" +:+ Join (a :: b :: l) "+" +:+ "@" +:+ D) "@" = 1
            ↔ Forall (λ a, Count a "@" = 0) (a :: b :: l)).
    set (J := Join (a :: b :: l) "+") in *.
    rewrite !Count_app, HL, HD.
    change (Count "@" "@") with 1. change (Count "+" "@") with 0. split.
    + intros H. apply Hinv. lia.
    + intros H. rewrite (Hjoin H eq_refl). lia.
Qed.

Lemma encoded_email_well_formed_iff_witness :
  well_formed (EmailAddressForUsernames ("git" +:+ "@" +:+ "example.com")
                 ["lb"; "m@b"]).1
  ↔ Forall (λ a, Count a "@" = 0) ["lb"; "m@b"].
Proof.
  apply (encoded_email_well_formed_iff "git" "example.com" ["lb"; "m@b"]);
    reflexivity.
Defined.

Example encoded_email_malformed_example :
  EmailAddressForUsernames "git@example.com" ["lb"; "m@b"]
  = ("git+lb+m@b@example.com", None) ∧
  (SplitEmail "git+lb+m@b@example.com").2
  = Some "invalid email address: git+lb+m@b@example.com".
Proof. split; reflexivity. Qed.

(** X2. On alias lists whose aliases contain neither "@" nor "+" and differ
    from the template's local-part, the encoding is injective: two lists
    with the same address are the same list. *)
Theorem EmailAddressForUsernames_injective (L D : string) (l1 l2 : list string) :
  Count L "@" = 0 → Count D "@" = 0 →
  Forall (plain_alias L) l1 → Forall (plain_alias L) l2 →
  EmailAddressForUsernames (L +:+ "@" +:+ D) l1
  = EmailAddressForUsernames (L +:+ "@" +:+ D) l2 →
  l1 = l2.
Proof.
  intros HL HD H1 H2.
  rewrite !(EmailAddressForUsernames_local L D) by done. intros [= E].
  assert (∀ l, Forall (plain_alias L) l → Count (encoded_local L l) "@" = 0) as Hat.
  { intros l Hl. destruct l as [|a [|b l]]; [done| |].
    - by apply Forall_cons in Hl as [(? & _) _].
    - unfold encoded_local. set (J := Join (a :: b :: l) "+").
      rewrite !Count_app, HL. unfold J. rewrite (Count_Join _ "+" "@"); [done| |done].
      eapply Forall_impl; [exact Hl|]. by intros x (? & _). }
  apply app_cancel_at in E; [|by auto..].
  assert (∀ l, Forall (plain_alias L) l → l ≠ [] →
               Split (Join l "+") "+" = l) as Hsp.
  { intros l Hl Hne. apply (Split_of_Join l "+" Hne).
    eapply Forall_impl; [exact Hl|]. by intros a (_ & ? & _). }
  assert (∀ a b l, L ≠ L +:+ "+" +:+ Join (a :: b :: l) "+") as Hlen.
  { intros a b l E'. apply (f_equal String.length) in E'.
    rewrite !string_app_length in E'. simpl in E'. lia. }
  assert (∀ a b c l, plain_alias L a → a ≠ L +:+ "+" +:+ Join (b :: c :: l) "+")
    as Hplus.
  { intros a b c l (_ & Hp & _) ->. set (J := Join (b :: c :: l) "+") in Hp.
    rewrite !Count_app in Hp. change (Count "+" "+") with 1 in Hp. lia. }
  destruct l1 as [|a1 [|b1 l1]], l2 as [|a2 [|b2 l2]]; unfold encoded_local in E;
    try done.
  - apply Forall_cons in H2 as [(_ & _ & Hne) _]. by destruct Hne.
  - by destruct (Hlen a2 b2 l2).
  - apply Forall_cons in H1 as [(_ & _ & Hne) _]. by destruct Hne.
  - by subst.
  - apply Forall_cons in H1 as [Ha1 _]. by destruct (Hplus a1 a2 b2 l2 Ha1).
  - by destruct (Hlen a1 b1 l1).
  - apply Forall_cons in H2 as [Ha2 _]. by destruct (Hplus a2 a1 b1 l1 Ha2).
  - apply (inj (String.app L)) in E. apply (inj (String.app "+")) in E.
    rewrite <-(Hsp _ H1), <-(Hsp _ H2) by done. by rewrite E.
Qed.

Lemma EmailAddressForUsernames_injective_witness :
  ["lb"; "mb"] = ["lb"; "mb"].
Proof.
  apply (EmailAddressForUsernames_injective "git" "example.com" ["lb"; "mb"] ["lb"; "mb"]);
    try reflexivity; repeat constructor; discriminate.
Defined.

(** Without the conditions two different lists can share an address. *)
Example EmailAddressForUsernames_collisions :
  EmailAddressForUsernames "git@example.com" ["a+b"; "c"]
  = EmailAddressForUsernames "git@example.com" ["a"; "b+c"] ∧
  EmailAddressForUsernames "git@example.com" ["git"]
  = EmailAddressForUsernames "git@example.com" [] ∧
  EmailAddressForUsernames "git@example.com" ["git+lb+mb"]
  = EmailAddressForUsernames "git@example.com" ["lb"; "mb"].
Proof. repeat split; reflexivity. Qed.

(** ** More on the config store *)

Lemma GitConfig_read (configFile property value : string) (w : World) :
  fails w ["config"; "--file"; configFile; property] = false →
  config w !! (configFile, property) = Some value →
  GitConfig configFile property w
  = ((TrimRight value CRLF, None), add_log ["config"; "--file"; configFile; property] w).
Proof.
  intros Hf Hv. unfold GitConfig, Output. unfold_M.
  rewrite (run_git_ok _ (ConfigGet configFile property) w Hf eq_refl). simpl.
  rewrite Hv. unfold CRLF.
  by rewrite (TrimRight_app_cutset value nl (String CR (String LF "")) eq_refl).
Qed.

Lemma GitConfig_unset (configFile property : string) (w : World) :
  fails w ["config"; "--file"; configFile; property] = false →
  config w !! (configFile, property) = None →
  GitConfig configFile property w
  = (("", exit_error), add_log ["config"; "--file"; configFile; property] w).
Proof.
  intros Hf Hv. unfold GitConfig, Output. unfold_M.
  rewrite (run_git_ok _ (ConfigGet configFile property) w Hf eq_refl). simpl.
  by rewrite Hv.
Qed.

Lemma GitConfig_fails (configFile property : string) (w : World) :
  fails w ["config"; "--file"; configFile; property] = true →
  GitConfig configFile property w
  = (("", exit_error), add_log ["config"; "--file"; configFile; property] w).
Proof.
  intros Hf. unfold GitConfig, Output. unfold_M. by rewrite (run_git_fails _ w Hf).
Qed.

(** X3. A value returned by [GitConfig] never ends with a carriage return or
    a line feed. *)
Theorem GitConfig_value_trimmed (configFile property value : string) (c : ascii)
    (w : World) :
  (GitConfig configFile property w).1 = (value, None) →
  last_byte value = Some c → c ≠ CR ∧ c ≠ LF.
Proof.
  intros Hg Hc.
  assert (in_cutset c CRLF = false) as Hcut.
  { destruct (fails w ["config"; "--file"; configFile; property]) eqn:Hf.
    { by rewrite (GitConfig_fails _ _ w Hf) in Hg. }
    destruct (config w !! (configFile, property)) as [v|] eqn:Hv.
    - rewrite (GitConfig_read _ _ v w Hf Hv) in Hg. simpl in Hg.
      injection Hg as <-. by apply (TrimRight_last v CRLF).
    - by rewrite (GitConfig_unset _ _ w Hf Hv) in Hg. }
  simpl in Hcut. apply orb_false_elim in Hcut as [H1 H2].
  apply orb_false_elim in H2 as [H2 _].
  split; intros ->; by rewrite Ascii.eqb_refl in *.
Qed.

Lemma GitConfig_value_trimmed_witness : "m"%char ≠ CR ∧ "m"%char ≠ LF.
Proof.
  apply (GitConfig_value_trimmed "cfg" "user.email" "mb@example.com" "m" solo_world);
    reflexivity.
Defined.

(** X4. Reading a property just after it was assigned gives the assigned
    value without its trailing carriage returns and line feeds, hence the
    value itself when it does not end with one. *)
Theorem GitConfig_after_SetGitConfig (configFile property value : string) (w : World) :
  fails w ["config"; "--file"; configFile; property; value] = false →
  fails w ["config"; "--file"; configFile; property] = false →
  (SetGitConfig configFile property value w).1 = None ∧
  (GitConfig configFile property (SetGitConfig configFile property value w).2).1
  = (TrimRight value CRLF, None) ∧
  ((∀ c, last_byte value = Some c → c ≠ CR ∧ c ≠ LF) →
   (GitConfig configFile property (SetGitConfig configFile property value w).2).1
   = (value, None)).
Proof.
  intros Hs Hg. rewrite (SetGitConfig_ok _ _ _ w Hs). simpl.
  rewrite (GitConfig_read configFile property value).
  - split_and!; [done..|]. intros Hlast. simpl. rewrite TrimRight_fixed; [done|].
    intros c Hc. destruct (Hlast c Hc) as [H1 H2]. simpl.
    destruct (Ascii.eqb_spec c CR) as [->|_]; [done|].
    destruct (Ascii.eqb_spec c LF) as [->|_]; done.
  - done.
  - simpl. apply lookup_insert_eq.
Qed.

Lemma GitConfig_after_SetGitConfig_witness :
  (SetGitConfig "cfg" "user.name" "Michael Bluth" (sample_world [])).1 = None ∧
  (GitConfig "cfg" "user.name"
     (SetGitConfig "cfg" "user.name" "Michael Bluth" (sample_world [])).2).1
  = (TrimRight "Michael Bluth" CRLF, None) ∧
  ((∀ c, last_byte "Michael Bluth" = Some c → c ≠ CR ∧ c ≠ LF) →
   (GitConfig "cfg" "user.name"
      (SetGitConfig "cfg" "user.name" "Michael Bluth" (sample_world [])).2).1
   = ("Michael Bluth", None)).
Proof.
  apply (GitConfig_after_SetGitConfig "cfg" "user.name" "Michael Bluth" (sample_world []));
    reflexivity.
Defined.

(** ** More on [PrintCurrentPairedUsers] *)

Lemma PrintCurrentPairedUsers_ok (configFile name email : string) (w : World) :
  reliable w →
  config w !! (configFile, "user.name") = Some name →
  config w !! (configFile, "user.email") = Some email →
  PrintCurrentPairedUsers configFile w
  = (true,
     add_stdout (TrimRight name CRLF +:+ " <" +:+ TrimRight email CRLF +:+ ">" +:+ nl)
       (add_log ["config"; "--file"; configFile; "user.email"]
          (add_log ["config"; "--file"; configFile; "user.name"] w))).
Proof.
  intros Hr Hn He. unfold PrintCurrentPairedUsers. unfold_M.
  rewrite (GitConfig_read _ _ name w (Hr _) Hn).
  by rewrite (GitConfig_read configFile "user.email" email
                (add_log ["config"; "--file"; configFile; "user.name"] w) (Hr _) He).
Qed.

(** X5. When no command is made to fail, [PrintCurrentPairedUsers] prints
    the stored "name <email>" line and returns true if both properties are
    set; if user.name is unset it fails without even reading user.email; if
    only user.email is unset it fails after reading both.  A failure prints
    one error line and nothing on the standard output. *)
Theorem PrintCurrentPairedUsers_cases (configFile : string) (w : World) :
  reliable w →
  match config w !! (configFile, "user.name"),
        config w !! (configFile, "user.email") with
  | Some name, Some email =>
      PrintCurrentPairedUsers configFile w
      = (true,
         add_stdout (TrimRight name CRLF +:+ " <" +:+ TrimRight email CRLF +:+ ">" +:+ nl)
           (add_log ["config"; "--file"; configFile; "user.email"]
              (add_log ["config"; "--file"; configFile; "user.name"] w)))
  | Some name, None =>
      PrintCurrentPairedUsers configFile w
      = (false,
         add_stderr ("error: unable to get current git author email: exit status 1"
                     +:+ nl)
           (add_log ["config"; "--file"; configFile; "user.email"]
              (add_log ["config"; "--file"; configFile; "user.name"] w)))
  | None, _ =>
      PrintCurrentPairedUsers configFile w
      = (false,
         add_stderr ("error: unable to get current git author name: exit status 1"
                     +:+ nl)
           (add_log ["config"; "--file"; configFile; "user.name"] w))
  end.
Proof.
  intros Hr.
  destruct (config w !! (configFile, "user.name")) as [name|] eqn:Hn.
  - destruct (config w !! (configFile, "user.email")) as [email|] eqn:He.
    + by apply PrintCurrentPairedUsers_ok.
    + unfold PrintCurrentPairedUsers. unfold_M.
      rewrite (GitConfig_read _ _ name w (Hr _) Hn).
      by rewrite (GitConfig_unset configFile "user.email"
                    (add_log ["config"; "--file"; configFile; "user.name"] w) (Hr _) He).
  - unfold PrintCurrentPairedUsers. unfold_M.
    by rewrite (GitConfig_unset _ _ w (Hr _) Hn).
Qed.

Lemma PrintCurrentPairedUsers_cases_witness :
  PrintCurrentPairedUsers "cfg" unpaired_world
  = (false,
     add_stderr ("error: unable to get current git author name: exit status 1" +:+ nl)
       (add_log ["config"; "--file"; "cfg"; "user.name"] unpaired_world)).
Proof.
  apply (PrintCurrentPairedUsers_cases "cfg" unpaired_world). intros args. reflexivity.
Defined.

(** ** More on the synchronizer *)

Lemma reliable_synced_world (configFile name email : string) (w : World) :
  reliable w → reliable (synced_world configFile name email w).
Proof. intros H args. apply H. Qed.

Lemma SetAndPrintNewPairedUsers_success (pairsFile configFile emailTemplate : string)
    (usernames : list string) (authorMap : gmap string string)
    (name email : string) (w : World) :
  reliable w →
  authors w pairsFile = (authorMap, None) →
  EmailAddressForUsernames emailTemplate (sort_Strings usernames) = (email, None) →
  NamesForUsernames (sort_Strings usernames) authorMap = (name, None) →
  SetAndPrintNewPairedUsers pairsFile configFile emailTemplate usernames w
  = (true, synced_world configFile name email w).
Proof.
  intros Hr Ha He Hn. unfold SetAndPrintNewPairedUsers, ReadAuthors. unfold_M.
  rewrite Ha, He, Hn. rewrite (SetGitConfig_ok _ _ _ w (Hr _)).
  rewrite SetGitConfig_ok by apply Hr.
  rewrite (PrintCurrentPairedUsers_ok configFile name email); [done| |simpl..].
  - intros args. apply Hr.
  - rewrite lookup_insert_ne by done. apply lookup_insert_eq.
  - apply lookup_insert_eq.
Qed.

(** X6. When the directory is read, the email and the names are derived
    and no command fails, the synchronizer returns true; the store is the old
    one with the derived name and email; the commands run are the two
    assignments and then the two reads; the line printed is the stored
    identity; nothing is written to the error stream and the branches are
    left alone. *)
Theorem sync_success (pairsFile configFile emailTemplate : string)
    (usernames : list string) (authorMap : gmap string string)
    (name email : string) (w : World) :
  reliable w →
  authors w pairsFile = (authorMap, None) →
  EmailAddressForUsernames emailTemplate (sort_Strings usernames) = (email, None) →
  NamesForUsernames (sort_Strings usernames) authorMap = (name, None) →
  (SetAndPrintNewPairedUsers pairsFile configFile emailTemplate usernames w).1 = true ∧
  config (SetAndPrintNewPairedUsers pairsFile configFile emailTemplate usernames w).2
  = <[(configFile, "user.email") := email]>
      (<[(configFile, "user.name") := name]> (config w)) ∧
  issued (SetAndPrintNewPairedUsers pairsFile configFile emailTemplate usernames) w
  = [["config"; "--file"; configFile; "user.name"; name];
     ["config"; "--file"; configFile; "user.email"; email];
     ["config"; "--file"; configFile; "user.name"];
     ["config"; "--file"; configFile; "user.email"]] ∧
  stdout (SetAndPrintNewPairedUsers pairsFile configFile emailTemplate usernames w).2
  = stdout w ++
    [TrimRight name CRLF +:+ " <" +:+ TrimRight email CRLF +:+ ">" +:+ nl] ∧
  stderr (SetAndPrintNewPairedUsers pairsFile configFile emailTemplate usernames w).2
  = stderr w ∧
  refs (SetAndPrintNewPairedUsers pairsFile configFile emailTemplate usernames w).2
  = refs w ∧
  head (SetAndPrintNewPairedUsers pairsFile configFile emailTemplate usernames w).2
  = head w.
Proof.
  intros Hr Ha He Hn.
  pose proof (SetAndPrintNewPairedUsers_success pairsFile configFile emailTemplate
                usernames authorMap name email w Hr Ha He Hn) as E.
  split_and!; try (by rewrite E).
  apply issued_app. rewrite E. simpl. by rewrite <-!app_assoc.
Qed.

Lemma sync_success_witness :
  (SetAndPrintNewPairedUsers "pairs" "cfg" "git@example.com" ["mb"; "lb"]
     solo_world).1 = true ∧
  config (SetAndPrintNewPairedUsers "pairs" "cfg" "git@example.com" ["mb"; "lb"]
            solo_world).2
  = <[("cfg", "user.email") := "git+lb+mb@example.com"]>
      (<[("cfg", "user.name") := "Lindsay Bluth and Michael Bluth"]> (config solo_world)) ∧
  issued (SetAndPrintNewPairedUsers "pairs" "cfg" "git@example.com" ["mb"; "lb"])
    solo_world
  = [["config"; "--file"; "cfg"; "user.name"; "Lindsay Bluth and Michael Bluth"];
     ["config"; "--file"; "cfg"; "user.email"; "git+lb+mb@example.com"];
     ["config"; "--file"; "cfg"; "user.name"];
     ["config"; "--file"; "cfg"; "user.email"]] ∧
  stdout (SetAndPrintNewPairedUsers "pairs" "cfg" "git@example.com" ["mb"; "lb"]
            solo_world).2
  = stdout solo_world ++
    [TrimRight "Lindsay Bluth and Michael Bluth" CRLF +:+ " <"
     +:+ TrimRight "git+lb+mb@example.com" CRLF +:+ ">" +:+ nl] ∧
  stderr (SetAndPrintNewPairedUsers "pairs" "cfg" "git@example.com" ["mb"; "lb"]
            solo_world).2
  = stderr solo_world ∧
  refs (SetAndPrintNewPairedUsers "pairs" "cfg" "git@example.com" ["mb"; "lb"]
          solo_world).2
  = refs solo_world ∧
  head (SetAndPrintNewPairedUsers "pairs" "cfg" "git@example.com" ["mb"; "lb"]
          solo_world).2
  = head solo_world.
Proof.
  apply (sync_success "pairs" "cfg" "git@example.com" ["mb"; "lb"] bluths
           "Lindsay Bluth and Michael Bluth" "git+lb+mb@example.com" solo_world);
    try reflexivity.
  intros args. reflexivity.
Defined.

(** X7. Running the synchronizer a second time with the same arguments
    changes nothing in the store and prints the same line again. *)
Theorem sync_idempotent (pairsFile configFile emailTemplate : string)
    (usernames : list string) (authorMap : gmap string string)
    (name email : string) (w : World) :
  reliable w →
  authors w pairsFile = (authorMap, None) →
  EmailAddressForUsernames emailTemplate (sort_Strings usernames) = (email, None) →
  NamesForUsernames (sort_Strings usernames) authorMap = (name, None) →
  (SetAndPrintNewPairedUsers pairsFile configFile emailTemplate usernames
     (SetAndPrintNewPairedUsers pairsFile configFile emailTemplate usernames w).2).1
  = true ∧
  config (SetAndPrintNewPairedUsers pairsFile configFile emailTemplate usernames
            (SetAndPrintNewPairedUsers pairsFile configFile emailTemplate usernames w).2).2
  = config (SetAndPrintNewPairedUsers pairsFile configFile emailTemplate usernames w).2 ∧
  stdout (SetAndPrintNewPairedUsers pairsFile configFile emailTemplate usernames
            (SetAndPrintNewPairedUsers pairsFile configFile emailTemplate usernames w).2).2
  = stdout w ++
    [TrimRight name CRLF +:+ " <" +:+ TrimRight email CRLF +:+ ">" +:+ nl;
     TrimRight name CRLF +:+ " <" +:+ TrimRight email CRLF +:+ ">" +:+ nl].
Proof.
  intros Hr Ha He Hn.
  rewrite (SetAndPrintNewPairedUsers_success pairsFile configFile emailTemplate
             usernames authorMap name email w Hr Ha He Hn). simpl snd.
  rewrite (SetAndPrintNewPairedUsers_success pairsFile configFile emailTemplate
             usernames authorMap name email (synced_world configFile name email w));
    [|by apply reliable_synced_world|done..].
  split_and!; [done| |].
  - simpl. rewrite (insert_insert_ne _ (configFile, "user.name")) by done.
    by rewrite !insert_insert_eq.
  - simpl. by rewrite <-app_assoc.
Qed.

Lemma sync_idempotent_witness :
  (SetAndPrintNewPairedUsers "pairs" "cfg" "git@example.com" ["mb"]
     (SetAndPrintNewPairedUsers "pairs" "cfg" "git@example.com" ["mb"] solo_world).2).1
  = true ∧
  config (SetAndPrintNewPairedUsers "pairs" "cfg" "git@example.com" ["mb"]
            (SetAndPrintNewPairedUsers "pairs" "cfg" "git@example.com" ["mb"]
               solo_world).2).2
  = config (SetAndPrintNewPairedUsers "pairs" "cfg" "git@example.com" ["mb"]
              solo_world).2 ∧
  stdout (SetAndPrintNewPairedUsers "pairs" "cfg" "git@example.com" ["mb"]
            (SetAndPrintNewPairedUsers "pairs" "cfg" "git@example.com" ["mb"]
               solo_world).2).2
  = stdout solo_world ++
    [TrimRight "Michael Bluth" CRLF +:+ " <" +:+ TrimRight "mb@example.com" CRLF
     +:+ ">" +:+ nl;
     TrimRight "Michael Bluth" CRLF +:+ " <" +:+ TrimRight "mb@example.com" CRLF
     +:+ ">" +:+ nl].
Proof.
  apply (sync_idempotent "pairs" "cfg" "git@example.com" ["mb"] bluths
           "Michael Bluth" "mb@example.com" solo_world);
    try reflexivity.
  intros args. reflexivity.
Defined.

(** X8. When the assignment of user.name fails, the synchronizer stops
    there: it returns false with one error line, the assignment of user.email
    is not attempted and the store is unchanged. *)
Theorem sync_name_write_fails (pairsFile configFile emailTemplate : string)
    (usernames : list string) (authorMap : gmap string string)
    (name email : string) (w : World) :
  authors w pairsFile = (authorMap, None) →
  EmailAddressForUsernames emailTemplate (sort_Strings usernames) = (email, None) →
  NamesForUsernames (sort_Strings usernames) authorMap = (name, None) →
  fails w ["config"; "--file"; configFile; "user.name"; name] = true →
  SetAndPrintNewPairedUsers pairsFile configFile emailTemplate usernames w
  = (false,
     add_stderr ("error: unable to set current git author name: exit status 1" +:+ nl)
       (add_log ["config"; "--file"; configFile; "user.name"; name] w)) ∧
  config (SetAndPrintNewPairedUsers pairsFile configFile emailTemplate usernames w).2
  = config w ∧
  issued (SetAndPrintNewPairedUsers pairsFile configFile emailTemplate usernames) w
  = [["config"; "--file"; configFile; "user.name"; name]].
Proof.
  intros Ha He Hn Hf.
  assert (SetAndPrintNewPairedUsers pairsFile configFile emailTemplate usernames w
          = (false,
             add_stderr ("error: unable to set current git author name: exit status 1"
                         +:+ nl)
               (add_log ["config"; "--file"; configFile; "user.name"; name] w))) as E.
  { unfold SetAndPrintNewPairedUsers, ReadAuthors. unfold_M.
    rewrite Ha, He, Hn. by rewrite (SetGitConfig_fails _ _ _ w Hf). }
  split_and!; [done|by rewrite E|]. apply issued_app. by rewrite E.
Qed.

(** A world where the config file cannot be written at all. *)
Lemma sync_name_write_fails_witness :
  SetAndPrintNewPairedUsers "pairs" "cfg" "git@example.com" ["mb"]
    (mkWorld ∅ ∅ "" (λ _, (bluths, None)) (λ _, ([], None)) ∅
       (λ args, bool_decide (length args = 5)) [] [] [])
  = (false,
     add_stderr ("error: unable to set current git author name: exit status 1" +:+ nl)
       (add_log ["config"; "--file"; "cfg"; "user.name"; "Michael Bluth"]
          (mkWorld ∅ ∅ "" (λ _, (bluths, None)) (λ _, ([], None)) ∅
             (λ args, bool_decide (length args = 5)) [] [] []))) ∧
  config (SetAndPrintNewPairedUsers "pairs" "cfg" "git@example.com" ["mb"]
            (mkWorld ∅ ∅ "" (λ _, (bluths, None)) (λ _, ([], None)) ∅
               (λ args, bool_decide (length args = 5)) [] [] [])).2
  = ∅ ∧
  issued (SetAndPrintNewPairedUsers "pairs" "cfg" "git@example.com" ["mb"])
    (mkWorld ∅ ∅ "" (λ _, (bluths, None)) (λ _, ([], None)) ∅
       (λ args, bool_decide (length args = 5)) [] [] [])
  = [["config"; "--file"; "cfg"; "user.name"; "Michael Bluth"]].
Proof.
  apply (sync_name_write_fails "pairs" "cfg" "git@example.com" ["mb"] bluths
           "Michael Bluth" "mb@example.com"); reflexivity.
Defined.

(** X9. In every world, whatever fails: if the synchronizer returns true
    then the directory was read, the email and the name were derived from
    the sorted aliases, and the store is the old one with exactly that name
    and that email. *)
Theorem sync_true_sound (pairsFile configFile emailTemplate : string)
    (usernames : list string) (w : World) :
  (SetAndPrintNewPairedUsers pairsFile configFile emailTemplate usernames w).1 = true →
  ∃ authorMap name email,
    authors w pairsFile = (authorMap, None) ∧
    EmailAddressForUsernames emailTemplate (sort_Strings usernames) = (email, None) ∧
    NamesForUsernames (sort_Strings usernames) authorMap = (name, None) ∧
    config (SetAndPrintNewPairedUsers pairsFile configFile emailTemplate usernames w).2
    = <[(configFile, "user.email") := email]>
        (<[(configFile, "user.name") := name]> (config w)).
Proof.
  unfold SetAndPrintNewPairedUsers, ReadAuthors. unfold_M.
  destruct (authors w pairsFile) as [authorMap [e|]] eqn:Ha; [done|].
  destruct (EmailAddressForUsernames emailTemplate (sort_Strings usernames))
    as [email [e|]] eqn:He; [done|].
  destruct (NamesForUsernames (sort_Strings usernames) authorMap)
    as [name [e|]] eqn:Hn; [done|].
  destruct (fails w ["config"; "--file"; configFile; "user.name"; name]) eqn:Hf1.
  { by rewrite (SetGitConfig_fails _ _ _ w Hf1). }
  rewrite (SetGitConfig_ok _ _ _ w Hf1).
  destruct (fails w ["config"; "--file"; configFile; "user.email"; email]) eqn:Hf2.
  { by rewrite SetGitConfig_fails. }
  rewrite SetGitConfig_ok by done. intros _.
  exists authorMap, name, email. split_and!; [done..|].
  by rewrite read_only_config by apply read_only_PrintCurrentPairedUsers.
Qed.

Lemma sync_true_sound_witness :
  ∃ authorMap name email,
    authors solo_world "pairs" = (authorMap, None) ∧
    EmailAddressForUsernames "git@example.com" (sort_Strings ["mb"]) = (email, None) ∧
    NamesForUsernames (sort_Strings ["mb"]) authorMap = (name, None) ∧
    config (SetAndPrintNewPairedUsers "pairs" "cfg" "git@example.com" ["mb"]
              solo_world).2
    = <[("cfg", "user.email") := email]>
        (<[("cfg", "user.name") := name]> (config solo_world)).
Proof.
  apply (sync_true_sound "pairs" "cfg" "git@example.com" ["mb"] solo_world).
  vm_compute. reflexivity.
Defined.

(** ** More on the branch switch *)

(** X10. The branch switch gives up before touching the repository when the
    stored email cannot be read, when the template is malformed, or when the
    stored email is malformed, in that order of precedence: it returns false,
    prints the corresponding error line, and the read of user.email is the
    only command run. *)
Theorem branch_switch_aborts (configFile branch emailTemplate email : string)
    (err : error) (w : World) :
  (GitConfig configFile "user.email" w).1 = (email, err) →
  err ≠ None ∨ ¬ well_formed emailTemplate ∨ ¬ well_formed email →
  ∃ msg,
    SwitchToPairBranch configFile branch emailTemplate w
    = (false, add_stderr msg (add_log ["config"; "--file"; configFile; "user.email"] w)) ∧
    (err ≠ None →
     msg = "error: unable to get current git author email from config file: "
           +:+ configFile +:+ nl) ∧
    (err = None → ¬ well_formed emailTemplate →
     msg = "error: unable to parse template email address: " +:+ emailTemplate +:+ nl) ∧
    (err = None → well_formed emailTemplate →
     msg = "error: unable to parse email address: " +:+ email +:+ nl).
Proof.
  intros Hg Hbad. unfold SwitchToPairBranch. unfold_M.
  rewrite (GitConfig_eq _ _ _ _ Hg).
  destruct err as [e|].
  { eexists. split; [done|]. split_and!; intros; congruence. }
  destruct (decide (well_formed emailTemplate)) as [Ht|Ht].
  - destruct Hbad as [?|[?|He]]; [done..|].
    pose proof Ht as Ht'. apply SplitEmail_ok_iff in Ht'.
    destruct (SplitEmail emailTemplate) as [[tu th] terr]. simpl in Ht'. subst terr.
    rewrite SplitEmail_error by (intros E; by apply He, SplitEmail_ok_iff).
    eexists. split; [done|]. split_and!; intros; (congruence || done).
  - rewrite SplitEmail_error by (intros E; by apply Ht, SplitEmail_ok_iff).
    eexists. split; [done|]. split_and!; intros; (congruence || done).
Qed.

Lemma branch_switch_aborts_witness :
  ∃ msg,
    SwitchToPairBranch "cfg" "X" "git@example.com" (sample_world [])
    = (false, add_stderr msg
                (add_log ["config"; "--file"; "cfg"; "user.email"] (sample_world []))) ∧
    (exit_error ≠ None →
     msg = "error: unable to get current git author email from config file: "
           +:+ "cfg" +:+ nl) ∧
    (exit_error = None → ¬ well_formed "git@example.com" →
     msg = "error: unable to parse template email address: " +:+ "git@example.com"
           +:+ nl) ∧
    (exit_error = None → well_formed "git@example.com" →
     msg = "error: unable to parse email address: " +:+ "" +:+ nl).
Proof.
  apply (branch_switch_aborts "cfg" "X" "git@example.com" "" exit_error (sample_world [])).
  - reflexivity.
  - left. discriminate.
Defined.

Example branch_switch_malformed_stored_email :
  SwitchToPairBranch "cfg" "X" "git@example.com"
    (sample_world [("user.email", "lb@mb@example.com")])
  = (false,
     add_stderr ("error: unable to parse email address: lb@mb@example.com" +:+ nl)
       (add_log ["config"; "--file"; "cfg"; "user.email"]
          (sample_world [("user.email", "lb@mb@example.com")]))).
Proof. vm_compute. reflexivity. Qed.

Lemma Count_encoded_local (L : string) (usernames : list string) :
  Count L "@" = 0 → Forall (λ a, Count a "@" = 0) usernames →
  Count (encoded_local L usernames) "@" = 0.
Proof.
  intros HL Hl. destruct usernames as [|a [|b l]]; [done| |].
  - by apply Forall_cons in Hl as [? _].
  - unfold encoded_local. pose proof (Count_Join (a :: b :: l) "+" "@" Hl eq_refl) as HJ.
    set (J := Join (a :: b :: l) "+") in *. rewrite !Count_app, HL, HJ. done.
Qed.

(** X11. Synchronizing and then switching branch compose as expected: after
    a synchronization that went through for aliases free of "@", the branch
    switch derives its prefix from the email just stored.  For two aliases
    or more the prefix is the sorted aliases joined with "+"; for one alias
    that does not itself start with the template's local-part and "+", it is
    that alias; for none it is the template's local-part. *)
Theorem sync_then_branch (pairsFile configFile branch L D : string)
    (usernames : list string) (authorMap : gmap string string) (name : string)
    (w : World) :
  reliable w →
  authors w pairsFile = (authorMap, None) →
  Count L "@" = 0 → Count D "@" = 0 →
  Forall (λ a, Count a "@" = 0) usernames →
  NamesForUsernames (sort_Strings usernames) authorMap = (name, None) →
  ∃ prefix checkout,
    issued (SwitchToPairBranch configFile branch (L +:+ "@" +:+ D))
      (SetAndPrintNewPairedUsers pairsFile configFile (L +:+ "@" +:+ D) usernames w).2
    = [["config"; "--file"; configFile; "user.email"];
       ["rev-parse"; prefix +:+ "/" +:+ branch]; checkout] ∧
    (checkout = ["checkout"; prefix +:+ "/" +:+ branch] ∨
     checkout = ["checkout"; "-b"; prefix +:+ "/" +:+ branch; "master"]) ∧
    (2 ≤ length usernames → prefix = Join (sort_Strings usernames) "+") ∧
    (∀ a, usernames = [a] → (∀ rest, a ≠ L +:+ "+" +:+ rest) → prefix = a) ∧
    (usernames = [] → prefix = L).
Proof.
  intros Hr Ha HL HD Hat Hn.
  set (sorted := sort_Strings usernames) in *.
  set (X := encoded_local L sorted).
  assert (Count X "@" = 0) as HX.
  { apply Count_encoded_local; [done|]. unfold sorted.
    by rewrite sort_Strings_Permutation. }
  rewrite (SetAndPrintNewPairedUsers_success pairsFile configFile (L +:+ "@" +:+ D)
             usernames authorMap name (X +:+ "@" +:+ D) w Hr Ha);
    [|by apply EmailAddressForUsernames_local|done].
  simpl snd. set (w1 := synced_world configFile name (X +:+ "@" +:+ D) w).
  assert ((GitConfig configFile "user.email" w1).1
          = (X +:+ "@" +:+ TrimRight D CRLF, None)) as Hg.
  { rewrite (GitConfig_read configFile "user.email" (X +:+ "@" +:+ D) w1).
    - simpl. f_equal. by apply (TrimRight_keep X D CRLF "@").
    - apply Hr.
    - simpl. apply lookup_insert_eq. }
  destruct (SwitchToPairBranch_run configFile branch (L +:+ "@" +:+ D)
              (X +:+ "@" +:+ TrimRight D CRLF) L D X (TrimRight D CRLF) w1 Hg)
    as (ok & w' & E & Hl & _ & _).
  { by apply SplitEmail_well_formed. }
  { apply SplitEmail_well_formed; [done|]. by apply Count_TrimRight. }
  exists (TrimPrefix X (L +:+ "+")),
    (checkout_args (rev_parse_ok w1 (fullBranch_of L X branch)) (fullBranch_of L X branch)).
  split_and!.
  - apply issued_app. by rewrite E.
  - unfold checkout_args, fullBranch_of. destruct (rev_parse_ok _ _); by eauto.
  - intros Hlen. assert (length sorted = length usernames) as Hsl.
    { unfold sorted. by rewrite sort_Strings_Permutation. }
    unfold X. destruct sorted as [|a [|b l]]; simpl in Hsl; [lia..|].
    unfold encoded_local. set (J := Join (a :: b :: l) "+").
    by rewrite <-app_assoc_string, TrimPrefix_app.
  - intros a -> Hno. unfold X, sorted. simpl.
    apply TrimPrefix_absent. intros rest ->. apply (Hno rest), app_assoc_string.
  - intros ->. unfold X, sorted. simpl.
    apply TrimPrefix_absent. intros rest E'. apply (f_equal String.length) in E'.
    rewrite !string_app_length in E'. simpl in E'. lia.
Qed.

Lemma sync_then_branch_witness :
  ∃ prefix checkout,
    issued (SwitchToPairBranch "cfg" "ONCALL-843" ("git" +:+ "@" +:+ "example.com"))
      (SetAndPrintNewPairedUsers "pairs" "cfg" ("git" +:+ "@" +:+ "example.com")
         ["mb"; "lb"] solo_world).2
    = [["config"; "--file"; "cfg"; "user.email"];
       ["rev-parse"; prefix +:+ "/" +:+ "ONCALL-843"]; checkout] ∧
    (checkout = ["checkout"; prefix +:+ "/" +:+ "ONCALL-843"] ∨
     checkout = ["checkout"; "-b"; prefix +:+ "/" +:+ "ONCALL-843"; "master"]) ∧
    (2 ≤ length ["mb"; "lb"] → prefix = Join (sort_Strings ["mb"; "lb"]) "+") ∧
    (∀ a, ["mb"; "lb"] = [a] → (∀ rest, a ≠ "git" +:+ "+" +:+ rest) → prefix = a) ∧
    (["mb"; "lb"] = [] → prefix = "git").
Proof.
  apply (sync_then_branch "pairs" "cfg" "ONCALL-843" "git" "example.com"
           ["mb"; "lb"] bluths "Lindsay Bluth and Michael Bluth" solo_world);
    try reflexivity.
  - intros args. reflexivity.
  - repeat constructor.
Defined.

Example sync_then_branch_example :
  issued (SwitchToPairBranch "cfg" "ONCALL-843" "git@example.com")
    (SetAndPrintNewPairedUsers "pairs" "cfg" "git@example.com" ["mb"; "lb"] solo_world).2
  = [["config"; "--file"; "cfg"; "user.email"];
     ["rev-parse"; "lb+mb/ONCALL-843"];
     ["checkout"; "-b"; "lb+mb/ONCALL-843"; "master"]].
Proof. vm_compute. reflexivity. Qed.

(** ** [GetDefaultEmailTemplate] *)

Lemma GetDefaultEmailTemplate_loop_skip (skipped rest : list string) :
  Forall (λ n, Count n "." < 2) skipped →
  GetDefaultEmailTemplate_loop (skipped ++ rest) = GetDefaultEmailTemplate_loop rest.
Proof.
  induction 1 as [|n l Hn _ IH]; [done|]. simpl.
  rewrite Split_length. destruct (Count n ".") as [|[|k]]; [done..|lia].
Qed.

Lemma GetDefaultEmailTemplate_loop_None (dnsNames : list string) :
  GetDefaultEmailTemplate_loop dnsNames = None
  ↔ Forall (λ n, Count n "." < 2) dnsNames.
Proof.
  induction dnsNames as [|n l IH]; simpl.
  - split; [by constructor|done].
  - rewrite Split_length. destruct (Count n ".") as [|[|k]] eqn:E.
    + rewrite IH. split; [intros ?; constructor; [lia|done]|by intros [_ ?]%Forall_cons].
    + rewrite IH. split; [intros ?; constructor; [lia|done]|by intros [_ ?]%Forall_cons].
    + split; [done|]. intros [? _]%Forall_cons. lia.
Qed.

(** X12. The default template is "git@" followed by the third-to-last and
    the second-to-last of the dot-separated labels of the first DNS name
    that has at least three labels; the last label is dropped.  So the name
    must end with a dot (host.example.com.) for the domain to be
    example.com. *)
Theorem GetDefaultEmailTemplate_domain (skipped labels rest : list string)
    (x y z : string) (w : World) :
  dnsNames w "en0" = (skipped ++ Join (labels ++ [x; y; z]) "." :: rest, None) →
  Forall (λ n, Count n "." < 2) skipped →
  Forall (λ p, Count p "." = 0) (labels ++ [x; y; z]) →
  GetDefaultEmailTemplate w = (("git@" +:+ x +:+ "." +:+ y, None), w).
Proof.
  intros Hd Hs Hl. unfold GetDefaultEmailTemplate, LookupReverseDNSNamesByInterface.
  unfold_M. rewrite Hd. rewrite GetDefaultEmailTemplate_loop_skip by done.
  cbn [GetDefaultEmailTemplate_loop].
  rewrite (Split_of_Join (labels ++ [x; y; z]) "."); [|by destruct labels|done].
  assert (Nat.leb 3 (length (labels ++ [x; y; z])) = true) as ->.
  { apply Nat.leb_le. rewrite length_app. simpl. lia. }
  assert (take 2 (drop (length (labels ++ [x; y; z]) - 3) (labels ++ [x; y; z]))
          = [x; y]) as ->; [|done].
  rewrite length_app. simpl length.
  replace (length labels + 3 - 3) with (length labels) by lia.
  by rewrite drop_app_length.
Qed.

Lemma GetDefaultEmailTemplate_domain_witness :
  GetDefaultEmailTemplate
    (mkWorld ∅ ∅ ""
       (λ _, (∅, None)) (λ _, (["localhost"; "mac42.corp.example.com."], None))
       ∅ (λ _, false) [] [] [])
  = (("git@" +:+ "example" +:+ "." +:+ "com", None),
     mkWorld ∅ ∅ ""
       (λ _, (∅, None)) (λ _, (["localhost"; "mac42.corp.example.com."], None))
       ∅ (λ _, false) [] [] []).
Proof.
  apply (GetDefaultEmailTemplate_domain ["localhost"] ["mac42"; "corp"] []
           "example" "com" "").
  - reflexivity.
  - repeat constructor.
  - repeat constructor.
Defined.

Example GetDefaultEmailTemplate_no_trailing_dot :
  GetDefaultEmailTemplate_loop ["mac42.example.com"] = Some "git@mac42.example".
Proof. reflexivity. Qed.

Lemma GetDefaultEmailTemplate_outcome (names : list string) (err : error)
    (w : World) :
  dnsNames w "en0" = (names, err) →
  ((GetDefaultEmailTemplate w).1.2 ≠ None
   ↔ err ≠ None ∨ Forall (λ n, Count n "." < 2) names) ∧
  (err = None → Forall (λ n, Count n "." < 2) names →
   (GetDefaultEmailTemplate w).1
   = ("", Some ("expected a hostname to be a fully-qualified domain name: "
                +:+ Join names ","))) ∧
  (GetDefaultEmailTemplate w).2 = w.
Proof.
  intros Hd. unfold GetDefaultEmailTemplate, LookupReverseDNSNamesByInterface.
  unfold_M. rewrite Hd. destruct err as [e|].
  { split_and!; [|done..]. split; [by left|done]. }
  pose proof (GetDefaultEmailTemplate_loop_None names) as HN.
  destruct (GetDefaultEmailTemplate_loop names) as [t|]; simpl.
  - split_and!; [|intros _ H; by apply HN in H|done].
    split; [done|]. intros [?|H]; [done|]. by apply HN in H.
  - split_and!; [|done..]. split; [|done]. intros _. right. by apply HN.
Qed.

(** X13. [GetDefaultEmailTemplate] fails exactly when the lookup fails or no
    DNS name has three labels or more; in the second case the error lists
    the names.  It changes nothing in the world. *)
Theorem GetDefaultEmailTemplate_error_iff (names : list string) (err : error)
    (w : World) :
  dnsNames w "en0" = (names, err) →
  ((GetDefaultEmailTemplate w).1.2 ≠ None
   ↔ err ≠ None ∨ Forall (λ n, Count n "." < 2) names) ∧
  (err = None → Forall (λ n, Count n "." < 2) names →
   (GetDefaultEmailTemplate w).1
   = ("", Some ("expected a hostname to be a fully-qualified domain name: "
                +:+ Join names ","))) ∧
  (GetDefaultEmailTemplate w).2 = w.
Proof. apply GetDefaultEmailTemplate_outcome. Qed.

Lemma GetDefaultEmailTemplate_error_iff_witness :
  ((GetDefaultEmailTemplate (sample_world [])).1.2 ≠ None
   ↔ (None : error) ≠ None ∨ Forall (λ n, Count n "." < 2) []) ∧
  ((None : error) = None → Forall (λ n, Count n "." < 2) [] →
   (GetDefaultEmailTemplate (sample_world [])).1
   = ("", Some ("expected a hostname to be a fully-qualified domain name: "
                +:+ Join [] ","))) ∧
  (GetDefaultEmailTemplate (sample_world [])).2 = sample_world [].
Proof.
  apply (GetDefaultEmailTemplate_error_iff [] None (sample_world [])). reflexivity.
Defined.

(** ** [main] *)

(** X14. With a -b flag and a template in PAIR_EMAIL, [main] is the branch
    switch on the selected config file, its exit status being 0 for true and
    1 for false; the alias arguments are ignored. *)
Theorem main_branch_flag (branch emailTemplate : string) (args : list string)
    (w : World) :
  branch ≠ "" → emailTemplate ≠ "" →
  environ w !! "PAIR_EMAIL" = Some emailTemplate →
  main branch args w
  = (exit_status (SwitchToPairBranch (config_file_of w) branch emailTemplate w).1,
     (SwitchToPairBranch (config_file_of w) branch emailTemplate w).2) ∧
  main branch args w = main branch [] w.
Proof.
  intros Hb Ht He.
  assert (∀ args0, main branch args0 w
    = (exit_status (SwitchToPairBranch (config_file_of w) branch emailTemplate w).1,
       (SwitchToPairBranch (config_file_of w) branch emailTemplate w).2)) as H.
  { intros args0. unfold main, Getenv, config_file_of. unfold_M.
    destruct emailTemplate as [|c1 t1]; [done|]. destruct branch as [|c2 b2]; [done|].
    destruct (environ w !! "PAIR_GIT_CONFIG") as [[|c f]|];
      cbn -[SwitchToPairBranch]; rewrite He; cbn -[SwitchToPairBranch];
      by destruct (SwitchToPairBranch _ (String c2 b2) (String c1 t1) w). }
  split; [apply H|]. by rewrite !H.
Qed.

Lemma main_branch_flag_witness :
  main "ONCALL-843" ["mb"; "lb"] pair_email_world
  = (exit_status
       (SwitchToPairBranch (config_file_of pair_email_world) "ONCALL-843"
          "git@example.com" pair_email_world).1,
     (SwitchToPairBranch (config_file_of pair_email_world) "ONCALL-843"
        "git@example.com" pair_email_world).2) ∧
  main "ONCALL-843" ["mb"; "lb"] pair_email_world
  = main "ONCALL-843" [] pair_email_world.
Proof.
  apply (main_branch_flag "ONCALL-843" "git@example.com" ["mb"; "lb"] pair_email_world).
  - discriminate.
  - discriminate.
  - reflexivity.
Defined.

Example main_branch_flag_example :
  main "ONCALL-843" ["mb"; "lb"] pair_email_world
  = (0,
     set_branch {["lb+mb/ONCALL-843"; "master"]} "lb+mb/ONCALL-843"
       (add_log ["checkout"; "-b"; "lb+mb/ONCALL-843"; "master"]
          (add_log ["rev-parse"; "lb+mb/ONCALL-843"]
             (add_log ["config"; "--file"; "/home/gob/.gitconfig_local"; "user.email"]
                pair_email_world)))).
Proof. vm_compute. reflexivity. Qed.

(** ** What the operations never do *)

#[export] Instance log_extends_observation (P : list string → Prop) :
  Observation (log_extends P).
Proof.
  split.
  - intros w. exists []. by rewrite app_nil_r.
  - intros w1 w2 w3 (l1 & Hl1 & F1) (l2 & Hl2 & F2). exists (l1 ++ l2).
    split; [by rewrite Hl2, Hl1, app_assoc|by apply Forall_app].
  - intros s w. exists []. simpl. by rewrite app_nil_r.
  - intros s w. exists []. simpl. by rewrite app_nil_r.
Qed.

#[export] Instance same_branches_observation : Observation same_branches.
Proof.
  split; try done. intros w1 w2 w3 [? ?] [? ?]. split; congruence.
Qed.

Section keeps.
Context (R : World → World → Prop) `{!Observation R}.

Lemma keeps_ret {A} (a : A) : keeps R (mret a : M A).
Proof. intros w. apply obs_refl. Qed.

Lemma keeps_bind {A B} (m : M A) (k : A → M B) :
  keeps R m → (∀ a, keeps R (k a)) → keeps R (m ≫= k).
Proof.
  intros Hm Hk w. unfold_M. specialize (Hm w).
  destruct (m w) as [a w1]. eapply obs_trans; [exact Hm|apply Hk].
Qed.

Lemma keeps_Getenv (name : string) : keeps R (Getenv name).
Proof. intros w. apply obs_refl. Qed.

Lemma keeps_ReadAuthors (pairsFile : string) : keeps R (ReadAuthors pairsFile).
Proof. intros w. apply obs_refl. Qed.

Lemma keeps_LookupReverseDNSNamesByInterface (interfaceName : string) :
  keeps R (LookupReverseDNSNamesByInterface interfaceName).
Proof. intros w. apply obs_refl. Qed.

Lemma keeps_Fprintf_Stderr (s : string) : keeps R (Fprintf_Stderr s).
Proof. intros w. apply obs_stderr. Qed.

Lemma keeps_Printf (s : string) : keeps R (Printf s).
Proof. intros w. apply obs_stdout. Qed.
End keeps.

Lemma only_runs_run_git (P : list string → Prop) (args : list string) :
  P args → keeps (log_extends P) (run_git args).
Proof.
  intros HP w. destruct (run_git_frame args w) as (Hl & _).
  exists [args]. split; [done|by constructor].
Qed.

Lemma same_branches_run_git (args : list string) :
  (∀ rest, args ≠ "checkout" :: rest) → keeps same_branches (run_git args).
Proof.
  intros Hno w. unfold run_git. simpl fails. destruct (fails w args); [done|].
  destruct (parse_git args) as [c|] eqn:E; [|done].
  apply parse_git_inv in E as ->.
  destruct c; simpl; repeat case_match; try done; by edestruct Hno.
Qed.

Create HintDb keeps.
#[local] Hint Resolve keeps_Getenv keeps_ReadAuthors
  keeps_LookupReverseDNSNamesByInterface keeps_Fprintf_Stderr keeps_Printf : keeps.

Ltac command_tac :=
  repeat case_match;
  first
    [ by (intros ? ? ?; simplify_eq)
    | by intros ? [=]
    | by eexists
    | by left
    | by (right; left; eexists)
    | by (right; right; eexists) ].

Ltac keeps_tac :=
  repeat first
    [ progress cbv zeta
    | apply keeps_ret; tc_solve
    | apply keeps_bind; [tc_solve| |intros ?]
    | match goal with
      | |- keeps _ (match ?x with _ => _ end) => destruct x
      end
    | solve [eauto with keeps typeclass_instances]
    | apply only_runs_run_git; command_tac
    | apply same_branches_run_git; command_tac ].

(** X15. The synchronizer runs nothing but [git config] commands on its
    config file, whatever happens; it never queries, creates or checks out a
    branch, and the branches are as they were. *)
Theorem sync_only_config (pairsFile configFile emailTemplate : string)
    (usernames : list string) (w : World) :
  Forall (config_on configFile)
    (issued (SetAndPrintNewPairedUsers pairsFile configFile emailTemplate usernames) w) ∧
  refs (SetAndPrintNewPairedUsers pairsFile configFile emailTemplate usernames w).2
  = refs w ∧
  head (SetAndPrintNewPairedUsers pairsFile configFile emailTemplate usernames w).2
  = head w.
Proof.
  assert (keeps (log_extends (config_on configFile))
            (SetAndPrintNewPairedUsers pairsFile configFile emailTemplate usernames))
    as H1.
  { unfold SetAndPrintNewPairedUsers, SetGitConfig, PrintCurrentPairedUsers,
      GitConfig, Output, Run. keeps_tac. }
  assert (keeps same_branches
            (SetAndPrintNewPairedUsers pairsFile configFile emailTemplate usernames))
    as H2.
  { unfold SetAndPrintNewPairedUsers, SetGitConfig, PrintCurrentPairedUsers,
      GitConfig, Output, Run. keeps_tac. }
  destruct (H1 w) as (cmds & Hl & F). destruct (H2 w) as [Hr Hh].
  split_and!; [|done..]. by rewrite (issued_app _ w cmds Hl).
Qed.

(** X16. The branch switch runs nothing but one read of user.email from its
    config file, [git rev-parse] and [git checkout], and never changes a
    config file. *)
Theorem branch_switch_only_branch_commands (configFile branch emailTemplate : string)
    (w : World) :
  Forall (branch_command configFile)
    (issued (SwitchToPairBranch configFile branch emailTemplate) w) ∧
  config (SwitchToPairBranch configFile branch emailTemplate w).2 = config w.
Proof.
  assert (keeps (log_extends (branch_command configFile))
            (SwitchToPairBranch configFile branch emailTemplate)) as H1.
  { unfold SwitchToPairBranch, GitConfig, Output, Run. keeps_tac. }
  destruct (H1 w) as (cmds & Hl & F). split.
  - by rewrite (issued_app _ w cmds Hl).
  - apply read_only_config, read_only_SwitchToPairBranch.
Qed.

Lemma keeps_apply {A} (R : World → World → Prop) (m : M A) (w : World) :
  keeps R m → R w (m w).2.
Proof. intros H. apply H. Qed.

Lemma keeps_at_pure {A B} (R : World → World → Prop) (m : M A) (k : A → M B)
    (a : A) (w : World) :
  m w = (a, w) → R w (k a w).2 → R w ((m ≫= k) w).2.
Proof. intros Hm Hk. unfold_M. by rewrite Hm. Qed.

Lemma bind_at {A B} (m : M A) (k : A → M B) (a : A) (w w' : World) :
  m w = (a, w') → (m ≫= k) w = k a w'.
Proof. intros Hm. unfold_M. by rewrite Hm. Qed.

(** The first two steps of [main] (pair.go:65-68). *)
Lemma main_selects_config_file (w : World) :
  ((if String.eqb (default "" (environ w !! "PAIR_GIT_CONFIG")) ""
    then home ← Getenv "HOME"; mret (home +:+ "/.gitconfig_local")
    else mret (default "" (environ w !! "PAIR_GIT_CONFIG"))) : M string) w
  = (config_file_of w, w).
Proof.
  unfold config_file_of, Getenv. unfold_M.
  by destruct (environ w !! "PAIR_GIT_CONFIG") as [[|c f]|].
Qed.

(** X17. Every [git config] command that [main] runs, in any mode, is on
    the file named by PAIR_GIT_CONFIG, or on .gitconfig_local in the home
    directory when that variable is unset or empty. *)
Theorem main_config_file (branch : string) (args : list string) (w : World) :
  Forall (addresses (config_file_of w)) (issued (main branch args) w).
Proof.
  assert (log_extends (addresses (config_file_of w)) w (main branch args w).2) as H.
  { unfold main.
    eapply (keeps_at_pure _ (Getenv "PAIR_GIT_CONFIG")); [reflexivity|].
    eapply keeps_at_pure; [apply main_selects_config_file|].
    generalize (config_file_of w). intros f. apply keeps_apply.
    unfold SwitchToPairBranch, SetAndPrintNewPairedUsers, SetGitConfig,
      PrintCurrentPairedUsers, GetDefaultEmailTemplate, GitConfig, Output, Run.
    keeps_tac. }
  destruct H as (cmds & Hl & F). by rewrite (issued_app _ w cmds Hl).
Qed.

Example main_config_file_example :
  issued (main "" ["mb"]) pair_email_world
  = [["config"; "--file"; "/home/gob/.gitconfig_local"; "user.name"; "Michael Bluth"];
     ["config"; "--file"; "/home/gob/.gitconfig_local"; "user.email"; "mb@example.com"];
     ["config"; "--file"; "/home/gob/.gitconfig_local"; "user.name"];
     ["config"; "--file"; "/home/gob/.gitconfig_local"; "user.email"]].
Proof. vm_compute. reflexivity. Qed.

(** ** More on the pure functions *)

(** X18. [NamesForUsernames] stops at the first alias, in list order, that
    the directory lacks: the error names that alias, whatever comes after
    it, and no name is returned. *)
Theorem NamesForUsernames_first_missing (authorMap : gmap string string)
    (pre post : list string) (u : string) :
  Forall (λ v, is_Some (authorMap !! v)) pre →
  authorMap !! u = None →
  NamesForUsernames (pre ++ u :: post) authorMap
  = ("", Some ("no such username: " +:+ u)).
Proof.
  intros Hpre Hu.
  assert (∀ acc, ∃ names,
    NamesForUsernames_loop (pre ++ u :: post) authorMap acc
    = (names, Some ("no such username: " +:+ u))) as Hloop.
  { induction Hpre as [|v pre [n Hv] _ IH]; intros acc; simpl.
    - rewrite Hu. by eexists.
    - rewrite Hv. apply IH. }
  destruct (Hloop []) as [names E]. unfold NamesForUsernames. rewrite E.
  rewrite length_app. simpl.
  by replace (length pre + S (length post)) with (S (length pre + length post)) by lia.
Qed.

Lemma NamesForUsernames_first_missing_witness :
  NamesForUsernames (["lb"] ++ "gob" :: ["mb"; "zz"]) bluths
  = ("", Some ("no such username: " +:+ "gob")).
Proof.
  apply (NamesForUsernames_first_missing bluths ["lb"] ["mb"; "zz"] "gob").
  - repeat constructor. by eexists.
  - reflexivity.
Defined.

(** X19. [EmailAddressForUsernames] succeeds exactly when the template has
    exactly one "@", whatever the aliases: a malformed template is an error
    even for the empty list, where a well-formed one is returned as it is. *)
Theorem EmailAddressForUsernames_error_iff (emailTemplate : string)
    (usernames : list string) :
  ((EmailAddressForUsernames emailTemplate usernames).2 = None
   ↔ well_formed emailTemplate) ∧
  (¬ well_formed emailTemplate →
   EmailAddressForUsernames emailTemplate usernames
   = ("", Some ("invalid email address: " +:+ emailTemplate))).
Proof.
  split; [|apply EmailAddressForUsernames_error].
  destruct (decide (well_formed emailTemplate)) as [H|H].
  - destruct (EmailAddressForUsernames_ok emailTemplate usernames H) as [email ->].
    done.
  - rewrite (EmailAddressForUsernames_error _ _ H). done.
Qed.

Lemma EmailAddressForUsernames_error_iff_witness :
  EmailAddressForUsernames "example.com" []
  = ("", Some ("invalid email address: " +:+ "example.com")).
Proof.
  apply (EmailAddressForUsernames_error_iff "example.com" []). discriminate.
Defined.

(** ** More on [main] *)

(** X20. When PAIR_EMAIL is unset or empty and no default template can be
    derived from the network, [main] exits with status 1 after one error
    line, in every mode, without running any command. *)
Theorem main_no_template (branch : string) (args names : list string)
    (err : error) (w : World) :
  default "" (environ w !! "PAIR_EMAIL") = "" →
  dnsNames w "en0" = (names, err) →
  err ≠ None ∨ Forall (λ n, Count n "." < 2) names →
  main branch args w
  = (1, add_stderr ("error: please set $PAIR_EMAIL to configure the pair email template"
                    +:+ nl) w).
Proof.
  intros He Hd Hbad.
  destruct (GetDefaultEmailTemplate_outcome names err w Hd) as (Hiff & _ & Hw).
  apply Hiff in Hbad.
  unfold main.
  rewrite (bind_at (Getenv "PAIR_GIT_CONFIG") _ _ w w eq_refl).
  rewrite (bind_at _ _ _ w w (main_selects_config_file w)).
  rewrite (bind_at (Getenv "PAIR_EMAIL") _ _ w w eq_refl).
  rewrite He. change (String.eqb "" "") with true. cbv iota.
  destruct (GetDefaultEmailTemplate w) as [[t [e|]] w'] eqn:E; simpl in *; [|done].
  subst w'. by rewrite (bind_at _ _ _ w w E).
Qed.

Lemma main_no_template_witness :
  main "" ["mb"] solo_world
  = (1, add_stderr ("error: please set $PAIR_EMAIL to configure the pair email template"
                    +:+ nl) solo_world).
Proof.
  apply (main_no_template "" ["mb"] [] None solo_world).
  - reflexivity.
  - reflexivity.
  - right. constructor.
Defined.

(** X21. Without the -b flag and with a template in PAIR_EMAIL, [main]
    reports the stored identity when there is no alias argument and runs the
    synchronizer on the arguments otherwise, on the selected config file and
    with the pairs file named by PAIR_FILE (.pairs in the home directory when
    unset or empty); the exit status is 0 for true and 1 for false. *)
Theorem main_without_flag (emailTemplate : string) (args : list string) (w : World) :
  emailTemplate ≠ "" →
  environ w !! "PAIR_EMAIL" = Some emailTemplate →
  (args = [] →
   main "" args w
   = (exit_status (PrintCurrentPairedUsers (config_file_of w) w).1,
      (PrintCurrentPairedUsers (config_file_of w) w).2)) ∧
  (args ≠ [] →
   main "" args w
   = (exit_status
        (SetAndPrintNewPairedUsers (pairs_file_of w) (config_file_of w)
           emailTemplate args w).1,
      (SetAndPrintNewPairedUsers (pairs_file_of w) (config_file_of w)
         emailTemplate args w).2)).
Proof.
  intros Ht He. destruct emailTemplate as [|c1 t1]; [done|].
  split; intros Hargs.
  - subst args. unfold main, Getenv, config_file_of. unfold_M.
    destruct (environ w !! "PAIR_GIT_CONFIG") as [[|c f]|];
      cbn -[PrintCurrentPairedUsers]; rewrite He; cbn -[PrintCurrentPairedUsers];
      by destruct (PrintCurrentPairedUsers _ w).
  - destruct args as [|a args]; [done|].
    unfold main, Getenv, config_file_of, pairs_file_of. unfold_M.
    destruct (environ w !! "PAIR_GIT_CONFIG") as [[|c f]|];
      cbn -[SetAndPrintNewPairedUsers]; rewrite He; cbn -[SetAndPrintNewPairedUsers];
      destruct (environ w !! "PAIR_FILE") as [[|c' f']|];
      cbn -[SetAndPrintNewPairedUsers];
      by destruct (SetAndPrintNewPairedUsers _ _ _ _ w).
Qed.

Lemma main_without_flag_witness :
  (["mb"] = [] →
   main "" ["mb"] pair_email_world
   = (exit_status (PrintCurrentPairedUsers (config_file_of pair_email_world)
                     pair_email_world).1,
      (PrintCurrentPairedUsers (config_file_of pair_email_world) pair_email_world).2)) ∧
  (["mb"] ≠ [] →
   main "" ["mb"] pair_email_world
   = (exit_status
        (SetAndPrintNewPairedUsers (pairs_file_of pair_email_world)
           (config_file_of pair_email_world) "git@example.com" ["mb"]
           pair_email_world).1,
      (SetAndPrintNewPairedUsers (pairs_file_of pair_email_world)
         (config_file_of pair_email_world) "git@example.com" ["mb"]
         pair_email_world).2)).
Proof.
  apply (main_without_flag "git@example.com" ["mb"] pair_email_world).
  - discriminate.
  - reflexivity.
Defined.

(** ** More on reporting and on the branch switch *)

(** X22. In every world, [PrintCurrentPairedUsers] changes neither the
    config files nor the branches; it runs the read of user.name and, only
    if that succeeds, the read of user.email; and when it returns false it
    has printed nothing on the standard output. *)
Theorem PrintCurrentPairedUsers_read_only (configFile : string) (w : World) :
  config (PrintCurrentPairedUsers configFile w).2 = config w ∧
  refs (PrintCurrentPairedUsers configFile w).2 = refs w ∧
  head (PrintCurrentPairedUsers configFile w).2 = head w ∧
  (issued (PrintCurrentPairedUsers configFile) w
   = [["config"; "--file"; configFile; "user.name"]] ∧
   (GitConfig configFile "user.name" w).1.2 ≠ None
   ∨
   issued (PrintCurrentPairedUsers configFile) w
   = [["config"; "--file"; configFile; "user.name"];
      ["config"; "--file"; configFile; "user.email"]] ∧
   (GitConfig configFile "user.name" w).1.2 = None) ∧
  ((PrintCurrentPairedUsers configFile w).1 = false →
   stdout (PrintCurrentPairedUsers configFile w).2 = stdout w).
Proof.
  pose proof (GitConfig_eq configFile "user.name" w _ eq_refl) as E1.
  set (w1 := add_log ["config"; "--file"; configFile; "user.name"] w) in *.
  pose proof (GitConfig_eq configFile "user.email" w1 _ eq_refl) as E2.
  destruct ((GitConfig configFile "user.name" w).1) as [name [e1|]].
  { assert (PrintCurrentPairedUsers configFile w
            = (false, add_stderr ("error: unable to get current git author name: "
                                  +:+ e1 +:+ nl) w1)) as E.
    { unfold PrintCurrentPairedUsers. unfold_M. by rewrite E1. }
    rewrite E. split_and!; try done. left. split; [|done].
    apply issued_app. by rewrite E. }
  destruct ((GitConfig configFile "user.email" w1).1) as [email [e2|]].
  - assert (PrintCurrentPairedUsers configFile w
            = (false, add_stderr ("error: unable to get current git author email: "
                                  +:+ e2 +:+ nl)
                        (add_log ["config"; "--file"; configFile; "user.email"] w1)))
      as E.
    { unfold PrintCurrentPairedUsers. unfold_M. rewrite E1. by rewrite E2. }
    rewrite E. split_and!; try done. right. split; [|done].
    apply issued_app. rewrite E. simpl. by rewrite <-app_assoc.
  - assert (PrintCurrentPairedUsers configFile w
            = (true, add_stdout (name +:+ " <" +:+ email +:+ ">" +:+ nl)
                       (add_log ["config"; "--file"; configFile; "user.email"] w1)))
      as E.
    { unfold PrintCurrentPairedUsers. unfold_M. rewrite E1. by rewrite E2. }
    rewrite E. split_and!; try done. right. split; [|done].
    apply issued_app. rewrite E. simpl. by rewrite <-app_assoc.
Qed.

Lemma SwitchToPairBranch_creates (configFile branch emailTemplate email : string)
    (w : World) :
  reliable w →
  (GitConfig configFile "user.email" w).1 = (email, None) →
  well_formed emailTemplate → well_formed email →
  fullBranch_of (SplitEmail emailTemplate).1.1 (SplitEmail email).1.1 branch ∉ refs w →
  "master" ∈ refs w →
  SwitchToPairBranch configFile branch emailTemplate w
  = (true,
     set_branch
       ({[fullBranch_of (SplitEmail emailTemplate).1.1 (SplitEmail email).1.1 branch]}
        ∪ refs w)
       (fullBranch_of (SplitEmail emailTemplate).1.1 (SplitEmail email).1.1 branch)
       (add_log ["checkout"; "-b";
                 fullBranch_of (SplitEmail emailTemplate).1.1 (SplitEmail email).1.1
                   branch;
                 "master"]
          (add_log ["rev-parse";
                    fullBranch_of (SplitEmail emailTemplate).1.1 (SplitEmail email).1.1
                      branch]
             (add_log ["config"; "--file"; configFile; "user.email"] w)))).
Proof.
  intros Hr Hg Ht%SplitEmail_ok_iff He%SplitEmail_ok_iff Hno Hm.
  unfold SwitchToPairBranch. unfold_M. rewrite (GitConfig_eq _ _ _ _ Hg).
  destruct (SplitEmail emailTemplate) as [[tu th] terr].
  destruct (SplitEmail email) as [[eu eh] eerr].
  simpl in Ht, He, Hno. subst terr eerr. simpl.
  fold (fullBranch_of tu eu branch). set (fb := fullBranch_of tu eu branch) in *.
  unfold Run. unfold_M.
  rewrite (run_git_ok _ (RevParse fb)) by (apply Hr || done). simpl.
  rewrite bool_decide_eq_false_2 by done.
  rewrite (run_git_ok _ (CheckoutNew fb "master")) by (apply Hr || done). simpl.
  rewrite bool_decide_eq_true_2 by done. by rewrite bool_decide_eq_true_2 by done.
Qed.

Lemma SwitchToPairBranch_checks_out (configFile branch emailTemplate email : string)
    (w : World) :
  reliable w →
  (GitConfig configFile "user.email" w).1 = (email, None) →
  well_formed emailTemplate → well_formed email →
  fullBranch_of (SplitEmail emailTemplate).1.1 (SplitEmail email).1.1 branch ∈ refs w →
  SwitchToPairBranch configFile branch emailTemplate w
  = (true,
     set_branch (refs w)
       (fullBranch_of (SplitEmail emailTemplate).1.1 (SplitEmail email).1.1 branch)
       (add_log ["checkout";
                 fullBranch_of (SplitEmail emailTemplate).1.1 (SplitEmail email).1.1
                   branch]
          (add_log ["rev-parse";
                    fullBranch_of (SplitEmail emailTemplate).1.1 (SplitEmail email).1.1
                      branch]
             (add_log ["config"; "--file"; configFile; "user.email"] w)))).
Proof.
  intros Hr Hg Ht%SplitEmail_ok_iff He%SplitEmail_ok_iff Hin.
  unfold SwitchToPairBranch. unfold_M. rewrite (GitConfig_eq _ _ _ _ Hg).
  destruct (SplitEmail emailTemplate) as [[tu th] terr].
  destruct (SplitEmail email) as [[eu eh] eerr].
  simpl in Ht, He, Hin. subst terr eerr. simpl.
  fold (fullBranch_of tu eu branch). set (fb := fullBranch_of tu eu branch) in *.
  unfold Run. unfold_M.
  rewrite (run_git_ok _ (RevParse fb)) by (apply Hr || done). simpl.
  rewrite bool_decide_eq_true_2 by done.
  rewrite (run_git_ok _ (Checkout fb)) by (apply Hr || done). simpl.
  by rewrite bool_decide_eq_true_2 by done.
Qed.

Lemma GitConfig_same_store (configFile property : string) (w w' : World) :
  fails w' = fails w → config w' = config w →
  (GitConfig configFile property w').1 = (GitConfig configFile property w).1.
Proof.
  intros Hf Hc.
  destruct (fails w ["config"; "--file"; configFile; property]) eqn:E.
  - rewrite (GitConfig_fails _ _ w E), GitConfig_fails; [done|by rewrite Hf].
  - destruct (config w !! (configFile, property)) as [v|] eqn:Hv.
    + rewrite (GitConfig_read _ _ v w E Hv).
      by rewrite (GitConfig_read _ _ v w'); [|rewrite Hf|rewrite Hc].
    + rewrite (GitConfig_unset _ _ w E Hv).
      by rewrite (GitConfig_unset _ _ w'); [|rewrite Hf|rewrite Hc].
Qed.

(** X23. Switching twice to the same topic: when no command fails, the
    pair's branch does not exist yet and master does, the first switch
    creates the branch from master and the second one only checks it out;
    both return true and leave the pair's branch checked out. *)
Theorem branch_switch_twice (configFile branch emailTemplate email : string)
    (w : World) :
  reliable w →
  (GitConfig configFile "user.email" w).1 = (email, None) →
  well_formed emailTemplate → well_formed email →
  fullBranch_of (SplitEmail emailTemplate).1.1 (SplitEmail email).1.1 branch ∉ refs w →
  "master" ∈ refs w →
  (SwitchToPairBranch configFile branch emailTemplate w).1 = true ∧
  issued (SwitchToPairBranch configFile branch emailTemplate) w
  = [["config"; "--file"; configFile; "user.email"];
     ["rev-parse";
      fullBranch_of (SplitEmail emailTemplate).1.1 (SplitEmail email).1.1 branch];
     ["checkout"; "-b";
      fullBranch_of (SplitEmail emailTemplate).1.1 (SplitEmail email).1.1 branch;
      "master"]] ∧
  (SwitchToPairBranch configFile branch emailTemplate
     (SwitchToPairBranch configFile branch emailTemplate w).2).1 = true ∧
  issued (SwitchToPairBranch configFile branch emailTemplate)
    (SwitchToPairBranch configFile branch emailTemplate w).2
  = [["config"; "--file"; configFile; "user.email"];
     ["rev-parse";
      fullBranch_of (SplitEmail emailTemplate).1.1 (SplitEmail email).1.1 branch];
     ["checkout";
      fullBranch_of (SplitEmail emailTemplate).1.1 (SplitEmail email).1.1 branch]] ∧
  head (SwitchToPairBranch configFile branch emailTemplate
          (SwitchToPairBranch configFile branch emailTemplate w).2).2
  = fullBranch_of (SplitEmail emailTemplate).1.1 (SplitEmail email).1.1 branch ∧
  refs (SwitchToPairBranch configFile branch emailTemplate
          (SwitchToPairBranch configFile branch emailTemplate w).2).2
  = refs (SwitchToPairBranch configFile branch emailTemplate w).2.
Proof.
  intros Hr Hg Ht He Hno Hm.
  set (fb := fullBranch_of (SplitEmail emailTemplate).1.1 (SplitEmail email).1.1 branch)
    in *.
  pose proof (SwitchToPairBranch_creates configFile branch emailTemplate email w
                Hr Hg Ht He Hno Hm) as E1.
  fold fb in E1. rewrite E1. simpl fst. simpl snd.
  set (w1 := set_branch _ _ _).
  assert (SwitchToPairBranch configFile branch emailTemplate w1
          = (true,
             set_branch (refs w1) fb
               (add_log ["checkout"; fb]
                  (add_log ["rev-parse"; fb]
                     (add_log ["config"; "--file"; configFile; "user.email"] w1)))))
    as E2.
  { apply (SwitchToPairBranch_checks_out configFile branch emailTemplate email w1).
    - intros args. apply Hr.
    - rewrite <-Hg. by apply GitConfig_same_store.
    - done.
    - done.
    - fold fb. unfold w1. simpl. set_solver. }
  rewrite E2. split_and!; try done.
  - apply issued_app. rewrite E1. simpl. by rewrite <-!app_assoc.
  - apply issued_app. rewrite E2. simpl. by rewrite <-!app_assoc.
Qed.

Lemma branch_switch_twice_witness :
  (SwitchToPairBranch "cfg" "ONCALL-843" "git@example.com" paired_world).1 = true ∧
  issued (SwitchToPairBranch "cfg" "ONCALL-843" "git@example.com") paired_world
  = [["config"; "--file"; "cfg"; "user.email"];
     ["rev-parse"; fullBranch_of "git" "git+lb+mb" "ONCALL-843"];
     ["checkout"; "-b"; fullBranch_of "git" "git+lb+mb" "ONCALL-843"; "master"]] ∧
  (SwitchToPairBranch "cfg" "ONCALL-843" "git@example.com"
     (SwitchToPairBranch "cfg" "ONCALL-843" "git@example.com" paired_world).2).1
  = true ∧
  issued (SwitchToPairBranch "cfg" "ONCALL-843" "git@example.com")
    (SwitchToPairBranch "cfg" "ONCALL-843" "git@example.com" paired_world).2
  = [["config"; "--file"; "cfg"; "user.email"];
     ["rev-parse"; fullBranch_of "git" "git+lb+mb" "ONCALL-843"];
     ["checkout"; fullBranch_of "git" "git+lb+mb" "ONCALL-843"]] ∧
  head (SwitchToPairBranch "cfg" "ONCALL-843" "git@example.com"
          (SwitchToPairBranch "cfg" "ONCALL-843" "git@example.com" paired_world).2).2
  = fullBranch_of "git" "git+lb+mb" "ONCALL-843" ∧
  refs (SwitchToPairBranch "cfg" "ONCALL-843" "git@example.com"
          (SwitchToPairBranch "cfg" "ONCALL-843" "git@example.com" paired_world).2).2
  = refs (SwitchToPairBranch "cfg" "ONCALL-843" "git@example.com" paired_world).2.
Proof.
  apply (branch_switch_twice "cfg" "ONCALL-843" "git@example.com"
           "git+lb+mb@example.com" paired_world); try reflexivity.
  - intros args. reflexivity.
  - vm_compute. set_solver.
Defined.
